(** * ProxyManager (app/proxy_manager.py): a shallow embedding

    The class [ProxyManager] keeps its state in class attributes and exposes
    class methods only.  The embedding below follows the source method by
    method:

    - the class attributes [_proxies], [__proxy_timestamp] and
      [__refresh_count] form the record [manager];
    - a method is a computation in the monad [M]: it threads the [manager],
      may raise a Python exception, and appends to a trace of observable
      effects (logger calls, [print], outbound HTTP requests);
    - what the outside world answers (HTTP responses, clock readings, random
      draws, results of the validation tasks) is an explicit argument of the
      method that consumes it;
    - [datetime] values are integers (microseconds), [timedelta] values too.

    A second, smaller model ([Module Objects]) keeps Python's list objects in
    a store, to talk about which list object a caller is handed. *)

From Stdlib Require Import ZArith Ascii String List Lia.
From stdpp Require Import base list strings gmap pretty.

Open Scope Z_scope.

(** ** Python strings: [str.split] and [str.join] with a one-character separator *)

Module Py.

Definition newline : ascii := "010"%char.

(** [s.split(sep)] for a separator of length one: the pieces between
    consecutive separators, empty pieces included; [''.split(sep) = ['']]. *)
Fixpoint split (sep : ascii) (s : string) : list string :=
  match s with
  | EmptyString => [ EmptyString ]
  | String c rest =>
      if Ascii.eqb c sep then EmptyString :: split sep rest
      else match split sep rest with
           | [] => [ String c EmptyString ]
           | piece :: pieces => String c piece :: pieces
           end
  end.

(** [sep.join(pieces)]. *)
Fixpoint join (sep : ascii) (pieces : list string) : string :=
  match pieces with
  | [] => EmptyString
  | [ piece ] => piece
  | piece :: more => piece +:+ String sep (join sep more)
  end.

(** Number of occurrences of a character. *)
Fixpoint count (c : ascii) (s : string) : nat :=
  match s with
  | EmptyString => 0%nat
  | String d rest => ((if Ascii.eqb d c then 1 else 0) + count c rest)%nat
  end.

(** [c in s]. *)
Fixpoint contains (c : ascii) (s : string) : bool :=
  match s with
  | EmptyString => false
  | String d rest => Ascii.eqb d c || contains c rest
  end.

End Py.

(** ** Exceptions, results, effects *)

Inductive exn : Type :=
  | TypeError
  | IndexError
  | KeyError (key : string)
  | UnboundLocalError (name : string)
  | Exception (msg : string).          (* any other subclass of Exception *)

Inductive result (A : Type) : Type :=
  | Ok (a : A)
  | Raise (e : exn).
Arguments Ok {A} a.
Arguments Raise {A} e.

(** Observable effects, in program order. *)
Inductive event : Type :=
  | LogInfo (msg : string)
  | LogDebug (msg : string)
  | LogError (msg : string)
  | Print (msg : string)
  | HttpGet (url : string).

(** What [requests.get(url)] followed by [raise_for_status()] yields: a
    response whose payload is read afterwards, or a
    [requests.exceptions.RequestException] (connection errors and bad status
    codes are both subclasses of it); [msg] is [str(e)]. *)
Inductive http_outcome (A : Type) : Type :=
  | Responded (payload : A)
  | RequestException (msg : string).
Arguments Responded {A} payload.
Arguments RequestException {A} msg.

(** ** The monad of methods

    A computation over a state of type [S]: it returns or raises, leaves a
    state behind (also when it raises), and a trace of effects. *)

Definition M (S A : Type) : Type := S -> result A * S * list event.

Definition ret {S A} (a : A) : M S A := fun st => (Ok a, st, []).

Definition bind {S A B} (m : M S A) (k : A -> M S B) : M S B :=
  fun st =>
    match m st with
    | (Ok a, st1, tr1) =>
        match k a st1 with
        | (r, st2, tr2) => (r, st2, tr1 ++ tr2)
        end
    | (Raise e, st1, tr1) => (Raise e, st1, tr1)
    end.

Notation "'let*' x ':=' m 'in' k" := (bind m (fun x => k))
  (at level 10, x name, m at level 100, k at level 200).
Notation "m ';;' k" := (bind m (fun _ => k))
  (at level 100, k at level 200, right associativity).

Definition raise {S A} (e : exn) : M S A := fun st => (Raise e, st, []).
Definition emit {S} (ev : event) : M S unit := fun st => (Ok tt, st, [ev]).
Definition gets {S A} (f : S -> A) : M S A := fun st => (Ok (f st), st, []).
Definition modify {S} (f : S -> S) : M S unit := fun st => (Ok tt, f st, []).

(** [try: body  except Exception as e: handler(e)]: effects of [body] up to
    the raise are kept. *)
Definition try_except {S A} (body : M S A) (handler : exn -> M S A) : M S A :=
  fun st =>
    match body st with
    | (Ok a, st1, tr1) => (Ok a, st1, tr1)
    | (Raise e, st1, tr1) =>
        match handler e st1 with
        | (r, st2, tr2) => (r, st2, tr1 ++ tr2)
        end
    end.

(** Projections of a run. *)
Definition outcome {S A} (r : result A * S * list event) : result A := fst (fst r).
Definition state_after {S A} (r : result A * S * list event) : S := snd (fst r).
Definition trace {S A} (r : result A * S * list event) : list event := snd r.

(** [datetime + timedelta]; [None + timedelta] is a [TypeError]. *)
Definition datetime_add {S} (t : option Z) (d : Z) : M S Z :=
  match t with
  | Some t => ret (t + d)
  | None => raise TypeError
  end.

(** Truth value of a list: [if l:] holds when [l] is not empty. *)
Definition truthy {A} (l : list A) : bool :=
  match l with
  | [] => false
  | _ :: _ => true
  end.

(** [seq[i]], an [IndexError] out of range. *)
Definition getitem {S A} (seq : list A) (i : nat) : M S A :=
  match seq !! i with
  | Some x => ret x
  | None => raise IndexError
  end.

(** [random.choice(seq)] is [seq[randbelow(len(seq))]]; [draw] is what the
    generator yields, reduced below the length. An empty [seq] is an
    [IndexError]. *)
Definition random_choice {S A} (draw : nat) (seq : list A) : M S A :=
  getitem seq (draw mod length seq)%nat.

(** [range(0, stop, step)]. *)
Definition range_step (stop step : nat) : list nat :=
  map (fun k => (k * step)%nat) (seq 0 ((stop + step - 1) / step)).

(** ** The class attributes *)

Record manager : Type := ProxyManager {
  _proxies : list string;
  __proxy_timestamp : option Z;      (* a datetime, or None *)
  __refresh_count : Z
}.

(** [timedelta(minutes=6)], in microseconds. *)
Definition __proxy_expiration : Z := 6 * 60 * 1000000.

(** The class body: [_proxies = []], [__proxy_timestamp = datetime.now()],
    [__refresh_count = 0]. *)
Definition class_init (now : Z) : manager :=
  {| _proxies := []; __proxy_timestamp := Some now; __refresh_count := 0 |}.

(** Attribute assignments. *)
Definition set_proxies (l : list string) : M manager unit :=
  modify (fun st => {| _proxies := l;
                       __proxy_timestamp := __proxy_timestamp st;
                       __refresh_count := __refresh_count st |}).

Definition set_proxy_timestamp (t : option Z) : M manager unit :=
  modify (fun st => {| _proxies := _proxies st;
                       __proxy_timestamp := t;
                       __refresh_count := __refresh_count st |}).

(** ** The methods of [ProxyManager] *)

(** What one call of [proxies_async] or [refresh_proxies] gets from the
    outside: the clock reading of the expiry test, the answer of the proxy
    site, and the clock reading stored as the new timestamp. *)
Record refresh_env : Type := RefreshEnv {
  now_check : Z;
  response : http_outcome string;
  now_stamp : Z
}.

Record stats : Type := Stats {
  proxy_count : nat;
  last_refresh : option string;
  next_refresh : string;
  refresh_count : Z
}.

Section Methods.

(** [settings.didsoft_proxy_url]: the [Settings] class of app/config.py
    declares no such field, so the value is a parameter here. *)
Variable didsoft_proxy_url : string.

(** [datetime.isoformat] of the standard library. *)
Variable isoformat : Z -> string.

(** [__get_proxies]: download the list, split it on newlines; on a
    [RequestException] print it and return the empty list. *)
Definition __get_proxies (resp : http_outcome string) : M manager (list string) :=
  emit (HttpGet didsoft_proxy_url) ;;
  match resp with
  | Responded proxy_text =>
      let proxies := Py.split Py.newline proxy_text in
      ret proxies
  | RequestException e =>
      emit (Print ("Error downloading proxies: " +:+ e)) ;;
      ret []
  end.

(** The body shared by [proxies_async] (under [if not cls._proxies]) and
    [refresh_proxies]; the call of [__test_proxy] is commented out in the
    source, the fetched list is stored as it is. *)
Definition fetch_and_store (env : refresh_env) : M manager unit :=
  emit (LogInfo "proxy_manager.py:Getting proxies from proxy site...") ;;
  let* all_proxies := __get_proxies (response env) in
  emit (LogInfo "proxy_manager.py:Testing proxies...") ;;
  set_proxies all_proxies ;;
  let* stored := gets _proxies in
  emit (LogInfo ("proxy_manager.py:Found " +:+ pretty (length stored) +:+ " proxies")) ;;
  set_proxy_timestamp (Some (now_stamp env)).

Definition proxies_async (env : refresh_env) : M manager (list string) :=
  let* cached := gets _proxies in
  (if truthy cached then
     let* stamp := gets __proxy_timestamp in
     let* deadline := datetime_add stamp __proxy_expiration in
     if deadline <? now_check env then set_proxies [] else ret tt
   else ret tt) ;;
  let* cached := gets _proxies in
  (if negb (truthy cached) then fetch_and_store env else ret tt) ;;
  gets _proxies.

Definition refresh_proxies (env : refresh_env) : M manager unit :=
  fetch_and_store env.

Definition get_random_proxy (draw : nat) : M manager (option string) :=
  let* cached := gets _proxies in
  if negb (truthy cached) then ret None
  else let* chosen := random_choice draw cached in ret (Some chosen).

Definition _get_next_refresh_time : M manager string :=
  let* stamp := gets __proxy_timestamp in
  match stamp with
  | None => ret "Unknown"
  | Some _ =>
      let* next_refresh := datetime_add stamp __proxy_expiration in
      ret (isoformat next_refresh)
  end.

Definition get_stats : M manager stats :=
  let* cached := gets _proxies in
  let* stamp := gets __proxy_timestamp in
  let* next := _get_next_refresh_time in
  let* count := gets __refresh_count in
  ret {| proxy_count := length cached;
         last_refresh := match stamp with
                         | Some t => Some (isoformat t)
                         | None => None
                         end;
         next_refresh := next;
         refresh_count := count |}.

End Methods.

(** ** Validator and batch tester *)

(** What the request of [__test_single_proxy] yields: a response with a
    status code, or any exception (timeout after 3 seconds included). *)
Inductive probe : Type :=
  | Status (code : Z)
  | ProbeFailed.

Section Validation.

(** [app.headers.headers_list]: a list of header dictionaries, defined
    outside the modules embedded here. *)
Variable header_set : Type.
Variable headers_list : list header_set.

(** [str(e)] of an exception, as the f-strings of the log calls use it. *)
Variable exn_str : exn -> string.

(** [__test_single_proxy]: the header choice is outside the [try]; inside,
    every exception is swallowed. *)
Definition __test_single_proxy (draw : nat) (answer : probe) : M manager bool :=
  let* headers := random_choice draw headers_list in
  match answer with
  | Status code => if code =? 200 then ret true else ret false
  | ProbeFailed => ret false
  end.

(** The loop of [_test_proxy_batch] over [enumerate(results)]. *)
Fixpoint batch_collect (proxies : list string) (i : nat)
    (results : list (result bool)) (valid_proxies : list string) : M manager (list string) :=
  match results with
  | [] => ret valid_proxies
  | Raise e :: rest =>
      let* failed := getitem proxies i in
      emit (LogDebug ("proxy_manager.py:Proxy " +:+ failed +:+ " testing failed: "
                      +:+ exn_str e)) ;;
      batch_collect proxies (S i) rest valid_proxies
  | Ok passed :: rest =>
      if passed then
        let* valid := getitem proxies i in
        batch_collect proxies (S i) rest (valid_proxies ++ [valid])
      else batch_collect proxies (S i) rest valid_proxies
  end.

(** [oracle i p] is what awaiting the [i]-th task (the validation of [p],
    run in the executor) gives; [asyncio.gather(..., return_exceptions=True)]
    reports one entry per task, a raised [Exception] as a value. *)
Definition gather (oracle : nat -> string -> result bool) (proxies : list string)
  : list (result bool) :=
  imap oracle proxies.

Definition _test_proxy_batch (oracle : nat -> string -> result bool)
    (proxies : list string) : M manager (list string) :=
  try_except
    (let results := gather oracle proxies in
     batch_collect proxies 0 results [])
    (fun e =>
       emit (LogError ("proxy_manager.py:Batch proxy testing failed: " +:+ exn_str e)) ;;
       ret []).

(** [_test_proxy_sync]: [oracle i p] is what the [i]-th direct call of the
    validator gives. *)
Fixpoint sync_collect (oracle : nat -> string -> result bool) (i : nat)
    (proxies : list string) (valid_proxies : list string) : M manager (list string) :=
  match proxies with
  | [] => ret valid_proxies
  | proxy :: rest =>
      match oracle i proxy with
      | Ok passed =>
          if passed then sync_collect oracle (S i) rest (valid_proxies ++ [proxy])
          else sync_collect oracle (S i) rest valid_proxies
      | Raise e =>
          emit (LogDebug ("proxy_manager.py:Proxy " +:+ proxy +:+ " testing failed: "
                          +:+ exn_str e)) ;;
          sync_collect oracle (S i) rest valid_proxies
      end
  end.

Definition _test_proxy_sync (oracle : nat -> string -> result bool)
    (proxies : list string) : M manager (list string) :=
  sync_collect oracle 0 proxies [].

Definition batch_size : nat := 20.

(** The loop of [__test_proxy] over [range(0, len(proxies), batch_size)]. *)
Fixpoint test_proxy_loop (oracle : nat -> string -> result bool)
    (proxies : list string) (starts : list nat) (valid_proxies : list string)
  : M manager (list string) :=
  match starts with
  | [] => ret valid_proxies
  | i :: later =>
      let batch := take batch_size (drop i proxies) in
      let* batch_results := _test_proxy_batch (fun j => oracle (i + j)%nat) batch in
      test_proxy_loop oracle proxies later (valid_proxies ++ batch_results)
  end.

(** [__test_proxy]; [fallback] answers the direct calls of the sequential
    fallback. *)
Definition __test_proxy (oracle fallback : nat -> string -> result bool)
    (proxies : list string) : M manager (list string) :=
  try_except
    (test_proxy_loop oracle proxies (range_step (length proxies) batch_size) [])
    (fun e =>
       emit (LogError ("proxy_manager.py:Proxy testing failed: " +:+ exn_str e)) ;;
       _test_proxy_sync fallback proxies).

End Validation.

(** The candidates a batch is expected to keep: those at a position whose
    validation returned [True]. *)
Fixpoint passed_from (oracle : nat -> string -> result bool) (i : nat)
    (proxies : list string) : list string :=
  match proxies with
  | [] => []
  | p :: rest =>
      match oracle i p with
      | Ok true => p :: passed_from oracle (S i) rest
      | _ => passed_from oracle (S i) rest
      end
  end.

(** ** The secondary fetcher [__get_proxies_2] *)

Section SecondaryFetcher.

(** A JSON value as [response.json()] builds it, and [str] on it. *)
Variable json : Type.
Variable py_str : json -> string.

Definition proxifly_url : string :=
  "https://cdn.jsdelivr.net/gh/proxifly/free-proxy-list@main/proxies/all/data.json".

(** [d[key]], a [KeyError] when the key is absent. *)
Definition dict_get {S} (d : gmap string json) (key : string) : M S json :=
  match d !! key with
  | Some v => ret v
  | None => raise (KeyError key)
  end.

(** The list comprehension
    [[str(proxy["ip"]) + ":" + str(proxy["port"]) for proxy in proxies if "ip" in proxy]]. *)
Fixpoint ip_port_list {S} (proxies : list (gmap string json)) : M S (list string) :=
  match proxies with
  | [] => ret []
  | proxy :: rest =>
      if bool_decide (is_Some (proxy !! "ip")) then
        let* ip := dict_get proxy "ip" in
        let* port := dict_get proxy "port" in
        let* tail := ip_port_list rest in
        ret ((py_str ip +:+ ":" +:+ py_str port) :: tail)
      else ip_port_list rest
  end.

(** The local [ip_list] is bound inside the [try] only: it is [None] here
    while it is unbound, and reading it unbound is an [UnboundLocalError].
    The payload is the JSON array of objects of the proxifly file. The
    handler catches [RequestException] only, other exceptions leave the
    function. *)
Definition __get_proxies_2 {S} (resp : http_outcome (list (gmap string json)))
  : M S (list string) :=
  let* ip_list :=
    (emit (HttpGet proxifly_url) ;;
     match resp with
     | Responded proxies =>
         let* built := ip_port_list proxies in
         ret (Some built)
     | RequestException e =>
         emit (Print ("Error downloading proxies: " +:+ e)) ;;
         ret None
     end) in
  match ip_list with
  | Some l => ret l
  | None => raise (UnboundLocalError "ip_list")
  end.

End SecondaryFetcher.

(** ** Several reads in a row

    The body of [proxies_async] has no [await] left (the awaited test is
    commented out, [__get_proxies] is a plain call), so the event loop runs
    each pending call to its end before it starts the next one: [N] calls
    made concurrently are [N] calls one after the other. *)

Fixpoint read_all (url : string) (envs : list refresh_env)
  : M manager (list (list string)) :=
  match envs with
  | [] => ret []
  | env :: later =>
      let* pool := proxies_async url env in
      let* pools := read_all url later in
      ret (pool :: pools)
  end.

Definition is_fetch (ev : event) : bool :=
  match ev with
  | HttpGet _ => true
  | _ => false
  end.

(** Number of refresh cycles a trace shows: each cycle downloads once. *)
Definition fetches (tr : list event) : nat := length (filter is_fetch tr).

(** The pool is stale when a read would refresh: empty, or older than the
    expiration. *)
Definition stale (st : manager) (now : Z) : Prop :=
  _proxies st = [] \/
  exists t, __proxy_timestamp st = Some t /\ t + __proxy_expiration < now.

(** States the class can be in: the class body, then any calls of its
    public methods. *)
Inductive call : Type :=
  | CallProxiesAsync (env : refresh_env)
  | CallRefreshProxies (env : refresh_env)
  | CallGetRandomProxy (draw : nat)
  | CallGetStats.

Definition run_call (url : string) (isoformat : Z -> string) (c : call) (st : manager)
  : manager :=
  match c with
  | CallProxiesAsync env => state_after (proxies_async url env st)
  | CallRefreshProxies env => state_after (refresh_proxies url env st)
  | CallGetRandomProxy draw => state_after (get_random_proxy draw st)
  | CallGetStats => state_after (get_stats isoformat st)
  end.

Inductive reachable (url : string) (isoformat : Z -> string) : manager -> Prop :=
  | reachable_init now : reachable url isoformat (class_init now)
  | reachable_call st c :
      reachable url isoformat st ->
      reachable url isoformat (run_call url isoformat c st).

(** Number of refresh cycles among a sequence of calls made from [st]. *)
Fixpoint cycles (url : string) (isoformat : Z -> string) (cs : list call) (st : manager)
  : nat :=
  match cs with
  | [] => 0
  | c :: later =>
      (match c with
       | CallProxiesAsync env => fetches (trace (proxies_async url env st))
       | CallRefreshProxies env => fetches (trace (refresh_proxies url env st))
       | _ => 0
       end + cycles url isoformat later (run_call url isoformat c st))%nat
  end.

Definition run_calls (url : string) (isoformat : Z -> string) (cs : list call)
    (st : manager) : manager :=
  fold_left (fun s c => run_call url isoformat c s) cs st.

(** ** List objects and who holds them

    Python lists are objects with an identity: [cls._proxies] holds a
    reference, and [return cls._proxies] hands that reference out. Here the
    list objects live in [cells], [proxies_ref] is the attribute. *)

Module Objects.

Record heap_state : Type := HeapState {
  cells : gmap nat (list string);
  next_ref : nat;                    (* identity of the next new list *)
  proxies_ref : nat;                 (* cls._proxies *)
  proxy_timestamp : option Z;
  refresh_counter : Z
}.

Definition contents (r : nat) (st : heap_state) : list string :=
  default [] (cells st !! r).

(** A list display, or the list [split] builds: a new object. *)
Definition new_list (l : list string) : M heap_state nat :=
  fun st =>
    (Ok (next_ref st),
     {| cells := <[next_ref st := l]> (cells st);
        next_ref := S (next_ref st);
        proxies_ref := proxies_ref st;
        proxy_timestamp := proxy_timestamp st;
        refresh_counter := refresh_counter st |},
     []).

(** [cls._proxies = r]: the attribute is bound to another object, no list
    is changed. *)
Definition set_proxies (r : nat) : M heap_state unit :=
  modify (fun st => {| cells := cells st;
                       next_ref := next_ref st;
                       proxies_ref := r;
                       proxy_timestamp := proxy_timestamp st;
                       refresh_counter := refresh_counter st |}).

Definition set_proxy_timestamp (t : option Z) : M heap_state unit :=
  modify (fun st => {| cells := cells st;
                       next_ref := next_ref st;
                       proxies_ref := proxies_ref st;
                       proxy_timestamp := t;
                       refresh_counter := refresh_counter st |}).

(** [r.append(x)], what a caller can do with a list it holds. *)
Definition list_append (r : nat) (x : string) : M heap_state unit :=
  modify (fun st => {| cells := alter (fun l => l ++ [x]) r (cells st);
                       next_ref := next_ref st;
                       proxies_ref := proxies_ref st;
                       proxy_timestamp := proxy_timestamp st;
                       refresh_counter := refresh_counter st |}).

Section Methods.

Variable didsoft_proxy_url : string.

Definition __get_proxies (resp : http_outcome string) : M heap_state nat :=
  emit (HttpGet didsoft_proxy_url) ;;
  match resp with
  | Responded proxy_text =>
      let* proxies := new_list (Py.split Py.newline proxy_text) in
      ret proxies
  | RequestException e =>
      emit (Print ("Error downloading proxies: " +:+ e)) ;;
      new_list []
  end.

Definition fetch_and_store (env : refresh_env) : M heap_state unit :=
  emit (LogInfo "proxy_manager.py:Getting proxies from proxy site...") ;;
  let* all_proxies := __get_proxies (response env) in
  emit (LogInfo "proxy_manager.py:Testing proxies...") ;;
  set_proxies all_proxies ;;
  let* stored := gets (fun st => contents (proxies_ref st) st) in
  emit (LogInfo ("proxy_manager.py:Found " +:+ pretty (length stored) +:+ " proxies")) ;;
  set_proxy_timestamp (Some (now_stamp env)).

Definition proxies_async (env : refresh_env) : M heap_state nat :=
  let* cached := gets (fun st => contents (proxies_ref st) st) in
  (if truthy cached then
     let* stamp := gets proxy_timestamp in
     let* deadline := datetime_add stamp __proxy_expiration in
     if deadline <? now_check env then
       let* empty := new_list [] in set_proxies empty
     else ret tt
   else ret tt) ;;
  let* cached := gets (fun st => contents (proxies_ref st) st) in
  (if negb (truthy cached) then fetch_and_store env else ret tt) ;;
  gets proxies_ref.

Definition refresh_proxies (env : refresh_env) : M heap_state unit :=
  fetch_and_store env.

End Methods.

(** The manager of the first model that a heap state stands for. *)
Definition view (st : heap_state) : manager :=
  {| _proxies := contents (proxies_ref st) st;
     __proxy_timestamp := proxy_timestamp st;
     __refresh_count := refresh_counter st |}.

(** The heap after a cycle: one more list object, bound to [_proxies]. *)
Definition refreshed (resp : http_outcome string) (stamp : Z) (st : heap_state)
  : heap_state :=
  {| cells := <[next_ref st := match resp with
                               | Responded proxy_text => Py.split Py.newline proxy_text
                               | RequestException _ => []
                               end]> (cells st);
     next_ref := S (next_ref st);
     proxies_ref := next_ref st;
     proxy_timestamp := Some stamp;
     refresh_counter := refresh_counter st |}.

(** The heap after the assignment [cls._proxies = []] of an expired read. *)
Definition emptied (st : heap_state) : heap_state :=
  {| cells := <[next_ref st := []]> (cells st);
     next_ref := S (next_ref st);
     proxies_ref := next_ref st;
     proxy_timestamp := proxy_timestamp st;
     refresh_counter := refresh_counter st |}.

End Objects.

(** The debug lines a batch logs: one per candidate whose validation raised. *)
Fixpoint debug_log (exn_str : exn -> string) (oracle : nat -> string -> result bool)
    (i : nat) (proxies : list string) : list event :=
  match proxies with
  | [] => []
  | p :: rest =>
      match oracle i p with
      | Raise e =>
          LogDebug ("proxy_manager.py:Proxy " +:+ p +:+ " testing failed: " +:+ exn_str e)
          :: debug_log exn_str oracle (S i) rest
      | Ok _ => debug_log exn_str oracle (S i) rest
      end
  end.

(** ** What a refresh cycle leaves behind *)

(** The list [__get_proxies] returns for an answer of the proxy site. *)
Definition candidates (resp : http_outcome string) : list string :=
  match resp with
  | Responded proxy_text => Py.split Py.newline proxy_text
  | RequestException _ => []
  end.

(** The effects of one cycle, in order. *)
Definition cycle_trace (url : string) (resp : http_outcome string) : list event :=
  [LogInfo "proxy_manager.py:Getting proxies from proxy site..."; HttpGet url]
  ++ match resp with
     | Responded _ => []
     | RequestException e => [Print ("Error downloading proxies: " +:+ e)]
     end
  ++ [LogInfo "proxy_manager.py:Testing proxies...";
      LogInfo ("proxy_manager.py:Found " +:+ pretty (length (candidates resp))
               +:+ " proxies")].

(** The manager after a cycle. *)
Definition refreshed (st : manager) (env : refresh_env) : manager :=
  {| _proxies := candidates (response env);
     __proxy_timestamp := Some (now_stamp env);
     __refresh_count := __refresh_count st |}.

(** ** Sample values for the examples *)

Module Sample.

Definition url : string := "http://proxies.example/list.txt".

(** A stand-in for [datetime.isoformat]: the microsecond count, printed. *)
Definition isoformat (t : Z) : string := pretty t.

Definition exn_str (e : exn) : string :=
  match e with
  | TypeError => "TypeError"
  | IndexError => "IndexError"
  | KeyError key => key
  | UnboundLocalError name => name
  | Exception msg => msg
  end.

(** The body ["1.1.1.1:80\n2.2.2.2:80"] of the scenario in the
    specification. *)
Definition two_lines : string :=
  "1.1.1.1:80" +:+ String Py.newline "2.2.2.2:80".

(** The validator of that scenario: the first endpoint passes, the second
    fails. *)
Definition first_only (i : nat) (p : string) : result bool :=
  Ok (String.eqb p "1.1.1.1:80").

Definition populated : manager :=
  {| _proxies := ["1.2.3.4:8080"]; __proxy_timestamp := Some 0; __refresh_count := 0 |}.

Definition site_down (now : Z) : refresh_env :=
  {| now_check := now; response := RequestException "connection refused";
     now_stamp := now |}.

Definition site_up (body : string) (now : Z) : refresh_env :=
  {| now_check := now; response := Responded body; now_stamp := now |}.

(** The class body on the heap: one empty list, bound to [_proxies]. *)
Definition heap_init (now : Z) : Objects.heap_state :=
  {| Objects.cells := {[ 0%nat := [] ]};
     Objects.next_ref := 1;
     Objects.proxies_ref := 0;
     Objects.proxy_timestamp := Some now;
     Objects.refresh_counter := 0 |}.

End Sample.

(** ** The scraper [__get_proxies_old]

    The page is what BeautifulSoup makes of it: [soup.find("tbody")] is
    [None] or a body whose rows ([find_all("tr")]) are lists of cell texts
    ([find_all("td")], [.text]). The request has no [raise_for_status] and no
    handler: an exception of [requests.get] leaves the method. *)

Section Scraper.

Variable header_set : Type.
Variable headers_list : list header_set.
Variable proxy_webpage : string.

(** The loop over the rows: [td[0].text + ":" + td[1].text], appended. *)
Fixpoint scrape_rows {S} (rows : list (list string)) (proxies : list string)
  : M S (list string) :=
  match rows with
  | [] => ret proxies
  | row :: rest =>
      let* ip := getitem row 0 in
      let* port := getitem row 1 in
      scrape_rows rest (proxies ++ [ip +:+ ":" +:+ port])
  end.

Definition __get_proxies_old {S} (draw : nat)
    (page : http_outcome (option (list (list string)))) : M S (list string) :=
  let* headers := random_choice draw headers_list in
  emit (HttpGet proxy_webpage) ;;
  match page with
  | RequestException msg => raise (Exception msg)
  | Responded None => raise (Exception "'NoneType' object has no attribute 'find_all'")
  | Responded (Some rows) => scrape_rows rows []
  end.

End Scraper.

(** What the scraper returns when every row has its two cells. *)
Definition row_proxy (row : list string) : string :=
  match row with
  | ip :: port :: _ => ip +:+ ":" +:+ port
  | _ => EmptyString
  end.

Definition row_complete (row : list string) : bool :=
  match row with
  | _ :: _ :: _ => true
  | _ => false
  end.

(** ** The HTTP layer (app/routes.py) *)

(** The [data] field of a response ([Any] in the source): what the four
    handlers put there. *)
Inductive payload : Type :=
  | DataNone
  | DataProxies (proxies : list string)
  | DataProxy (proxy : string)
  | DataStats (s : stats)
  | DataHealth (status : string) (count : nat) (last : option string) (service : string)
  | DataUnhealthy (status : string) (error : string).

Record ProxyResponse : Type := Response {
  success : bool;
  data : payload;
  message : string
}.

(** A handler answers, or raises [HTTPException(status_code, detail)]. *)
Inductive http_result (A : Type) : Type :=
  | Answered (a : A)
  | HTTPException (status_code : Z) (detail : string).
Arguments Answered {A} a.
Arguments HTTPException {A} status_code detail.

Definition handler (A : Type) : Type :=
  manager -> http_result A * manager * list event.

(** [not v] for an optional string: [None] and [''] are false values. *)
Definition falsy (v : option string) : bool :=
  match v with
  | Some (String _ _) => false
  | _ => true
  end.

Module Routes.
Section Handlers.

Variable didsoft_proxy_url : string.
Variable isoformat : Z -> string.
Variable exn_str : exn -> string.

(** [try: body  except Exception as e: logger.error(...); raise
    HTTPException(500, ...)], the frame of three of the handlers. *)
Definition or_500 (name what : string) (body : M manager ProxyResponse)
  : handler ProxyResponse :=
  fun st =>
    match body st with
    | (Ok r, st1, tr) => (Answered r, st1, tr)
    | (Raise e, st1, tr) =>
        (HTTPException 500 ("Failed to retrieve " +:+ what +:+ ": " +:+ exn_str e),
         st1,
         tr ++ [LogError ("Error in " +:+ name +:+ ": " +:+ exn_str e)])
    end.


Definition get_random_proxy (draw : nat) : handler ProxyResponse :=
  or_500 "get_random_proxy" "random proxy"
    (emit (LogInfo "GET /proxy/random endpoint called") ;;
     let* proxy := get_random_proxy draw in
     if falsy proxy then
       ret {| success := false; data := DataNone;
              message := "No valid proxies available" |}
     else
       ret {| success := true;
              data := match proxy with
                      | Some p => DataProxy p
                      | None => DataNone
                      end;
              message := "Random proxy retrieved successfully" |}).


Definition get_stats : handler ProxyResponse :=
  or_500 "get_stats" "statistics"
    (emit (LogInfo "GET /stats endpoint called") ;;
     let* stats := get_stats isoformat in
     ret {| success := true; data := DataStats stats;
            message := "Statistics retrieved successfully" |}).

End Handlers.
End Routes.

(** ** The API key check (app/main.py, [verify_api_key]) *)

Record key_settings : Type := KeySettings {
  require_api_key : bool;
  api_key : string
}.

(** [a or b]: [a] unless it is a false value. *)
Definition py_or (a b : option string) : option string :=
  if falsy a then b else a.

(** [s[n:]]. *)
Fixpoint slice_from (n : nat) (s : string) : string :=
  match n, s with
  | O, _ => s
  | S _, EmptyString => EmptyString
  | S m, String _ rest => slice_from m rest
  end.

(** What is compared with the configured key: the header value without one
    leading ["Bearer "]. *)
Definition presented_key (value : string) : string :=
  if String.prefix "Bearer " value then slice_from 7 value else value.

(** [headers] is [request.headers], looked up under the two names the
    source uses (Starlette ignores their case). *)
Definition verify_api_key (settings : key_settings) (headers : gmap string string)
  : http_result bool :=
  if negb (require_api_key settings) then Answered true
  else
    match py_or (headers !! "X-API-Key") (headers !! "Authorization") with
    | Some (String _ _ as value) =>
        if negb (String.eqb (presented_key value) (api_key settings))
        then HTTPException 401 "Invalid API key"
        else Answered true
    | _ =>                                              (* [if not api_key] *)
        HTTPException 401
          "API key required. Please provide X-API-Key or Authorization header"
    end.

(** ** The thread pool holder (app/core/concurrency.py, [CPUExecutors]) *)

Module Concurrency.

(** The instance ([max_workers], [_executor]) together with the pools of the
    process it has built: [alive] are those not shut down, [built] counts
    them and names the next one. *)
Record executors : Type := CPUExecutors {
  max_workers : option Z;
  _executor : option nat;
  alive : gset nat;
  built : nat
}.

Definition __init__ (workers : option Z) : executors :=
  {| max_workers := workers; _executor := None; alive := ∅; built := 0 |}.

(** A new pool comes to life. *)
Definition new_pool : M executors nat :=
  fun st =>
    (Ok (built st),
     {| max_workers := max_workers st; _executor := _executor st;
        alive := {[ built st ]} ∪ alive st; built := S (built st) |}, []).

(** [ThreadPoolExecutor(max_workers=n)]: a [ValueError] for [n <= 0]. *)
Definition ThreadPoolExecutor (workers : option Z) : M executors nat :=
  match workers with
  | Some n =>
      if n <=? 0 then raise (Exception "max_workers must be greater than 0")
      else new_pool
  | None => new_pool
  end.

Definition set_executor (e : option nat) : M executors unit :=
  modify (fun st => {| max_workers := max_workers st; _executor := e;
                       alive := alive st; built := built st |}).

(** The property [executor]. *)
Definition executor : M executors nat :=
  let* current := gets _executor in
  match current with
  | None =>
      let* workers := gets max_workers in
      let* pool := ThreadPoolExecutor workers in
      set_executor (Some pool) ;;
      ret pool
  | Some pool => ret pool
  end.

(** [pool.shutdown(wait=True)]. *)
Definition pool_shutdown (pool : nat) : M executors unit :=
  modify (fun st => {| max_workers := max_workers st; _executor := _executor st;
                       alive := alive st ∖ {[ pool ]}; built := built st |}).

Definition shutdown : M executors unit :=
  let* current := gets _executor in
  match current with
  | Some pool => pool_shutdown pool ;; set_executor None
  | None => ret tt
  end.

(** [run_in_thread(func, ...)]: [answer] is what [func] does in the pool. *)
Definition run_in_thread {A} (answer : result A) : M executors A :=
  let* pool := executor in
  match answer with
  | Ok a => ret a
  | Raise e => raise e
  end.

(** One awaited task of [gather(..., return_exceptions=True)]: an exception
    becomes an entry of the result list. *)
Definition as_entry {S A} (task : M S A) : M S (result A) :=
  fun st => match task st with (r, st1, tr) => (Ok r, st1, tr) end.

Fixpoint run_batch_from {A B} (answers : nat -> A -> result B) (i : nat)
    (items : list A) : M executors (list (result B)) :=
  match items with
  | [] => ret []
  | item :: rest =>
      let* entry := as_entry (run_in_thread (answers i item)) in
      let* entries := run_batch_from answers (S i) rest in
      ret (entry :: entries)
  end.

Definition run_batch {A B} (answers : nat -> A -> result B) (items : list A)
  : M executors (list (result B)) :=
  run_batch_from answers 0 items.

(** [__exit__] of the context manager. *)
Definition __exit__ : M executors unit := shutdown.

Inductive call : Type :=
  | GetExecutor
  | Shutdown
  | RunInThread (answer : result bool)
  | RunBatch (answers : nat -> string -> result bool) (items : list string)
  | Exit.

Definition run_call (c : call) (st : executors) : executors :=
  match c with
  | GetExecutor => state_after (executor st)
  | Shutdown => state_after (shutdown st)
  | RunInThread answer => state_after (run_in_thread answer st)
  | RunBatch answers items => state_after (run_batch answers items st)
  | Exit => state_after (__exit__ st)
  end.

Definition run_calls (cs : list call) (st : executors) : executors :=
  fold_left (fun s c => run_call c s) cs st.

(** The pools alive are the one the instance holds, if it holds one. *)
Definition one_pool (st : executors) : Prop :=
  alive st = match _executor st with
             | Some pool => {[ pool ]}
             | None => ∅
             end.

End Concurrency.

(** ** Starting the refresher (app/main.py, [start_refresh])

    [proxy_task] is the global; [running] are the refresher tasks that are
    not done, [created] counts the tasks made. A task ends on its own (its
    run time is over, or it fails): that is [task_ends], a step of the
    world. *)

Module Main.

Record app_state : Type := AppState {
  proxy_task : option nat;
  running : gset nat;
  created : nat
}.

Definition startup : app_state :=
  {| proxy_task := None; running := ∅; created := 0 |}.

Inductive start_answer : Type :=
  | Started (duration : string)
  | AlreadyRunning.

(** [asyncio.create_task(refresh_proxies_periodically(run_time))]. *)
Definition create_task : M app_state nat :=
  fun st =>
    (Ok (created st),
     {| proxy_task := proxy_task st;
        running := {[ created st ]} ∪ running st;
        created := S (created st) |}, []).

Definition set_proxy_task (t : nat) : M app_state unit :=
  modify (fun st => {| proxy_task := Some t; running := running st;
                       created := created st |}).

(** [task.done()]. *)
Definition done (t : nat) : M app_state bool :=
  gets (fun st => negb (bool_decide (t ∈ running st))).

Definition start_refresh (run_time : Z) : M app_state start_answer :=
  let* task := gets proxy_task in
  let* idle := match task with
               | None => ret true
               | Some t => done t
               end in
  if idle then
    let* t := create_task in
    set_proxy_task t ;;
    ret (Started (pretty (run_time / 3600) +:+ " hours"))
  else ret AlreadyRunning.

Definition task_ends (t : nat) (st : app_state) : app_state :=
  {| proxy_task := proxy_task st; running := running st ∖ {[ t ]};
     created := created st |}.

Inductive step : Type :=
  | StartRefresh (run_time : Z)
  | TaskEnds (t : nat).

Definition run_step (s : step) (st : app_state) : app_state :=
  match s with
  | StartRefresh run_time => state_after (start_refresh run_time st)
  | TaskEnds t => task_ends t st
  end.

Definition run_steps (ss : list step) (st : app_state) : app_state :=
  fold_left (fun s c => run_step c s) ss st.

(** A refresher that runs is the one [proxy_task] names. *)
Definition one_refresher (st : app_state) : Prop :=
  forall t, t ∈ running st -> proxy_task st = Some t.

End Main.

(** ** More sample values *)

Module Fixture.

Definition secured : key_settings :=
  {| require_api_key := true; api_key := "s3cret" |}.

Definition stale_pool : manager :=
  {| _proxies := ["1.2.3.4:8080"]; __proxy_timestamp := Some 0; __refresh_count := 0 |}.

End Fixture.

(** * Properties *)

(** ** [str.split] *)

Lemma split_not_nil sep s : Py.split sep s <> [].
Proof.
  destruct s as [|c rest]; simpl; [discriminate|].
  destruct (Ascii.eqb c sep); [discriminate|].
  destruct (Py.split sep rest); discriminate.
Qed.

Lemma join_cons sep piece more :
  more <> [] -> Py.join sep (piece :: more) = piece +:+ String sep (Py.join sep more).
Proof. destruct more; [congruence | reflexivity]. Qed.

Lemma join_split sep s : Py.join sep (Py.split sep s) = s.
Proof.
  induction s as [|c rest IH]; [reflexivity|].
  simpl. destruct (Ascii.eqb c sep) eqn:E.
  - apply Ascii.eqb_eq in E; subst c.
    rewrite join_cons by apply split_not_nil.
    simpl. now rewrite IH.
  - pose proof (split_not_nil sep rest) as Hne.
    destruct (Py.split sep rest) as [|piece pieces]; [congruence|].
    destruct pieces as [|p2 more].
    + simpl in *. now rewrite IH.
    + change (Py.join sep (String c piece :: p2 :: more))
        with (String c (piece +:+ String sep (Py.join sep (p2 :: more)))).
      change (Py.join sep (piece :: p2 :: more))
        with (piece +:+ String sep (Py.join sep (p2 :: more))) in IH.
      now rewrite IH.
Qed.

Lemma length_split sep s : length (Py.split sep s) = S (Py.count sep s).
Proof.
  induction s as [|c rest IH]; [reflexivity|].
  simpl. destruct (Ascii.eqb c sep).
  - simpl. now rewrite IH.
  - destruct (Py.split sep rest); simpl in *; lia.
Qed.

Lemma split_pieces_free sep s :
  Forall (fun piece => Py.contains sep piece = false) (Py.split sep s).
Proof.
  induction s as [|c rest IH]; simpl.
  - repeat constructor.
  - destruct (Ascii.eqb c sep) eqn:E.
    + constructor; [reflexivity | exact IH].
    + destruct (Py.split sep rest) as [|piece pieces].
      * repeat constructor. simpl. now rewrite E.
      * inversion IH; subst. constructor; [|assumption].
        simpl. rewrite E. assumption.
Qed.


(** ** Runs of the methods *)

Lemma get_proxies_run url resp st :
  __get_proxies url resp st =
  (Ok (candidates resp), st,
   HttpGet url :: match resp with
                  | Responded _ => []
                  | RequestException e => [Print ("Error downloading proxies: " +:+ e)]
                  end).
Proof. destruct resp; reflexivity. Qed.

Lemma fetch_and_store_run url env st :
  fetch_and_store url env st = (Ok tt, refreshed st env, cycle_trace url (response env)).
Proof.
  unfold fetch_and_store, refreshed, cycle_trace.
  destruct (response env); reflexivity.
Qed.

Lemma refresh_proxies_run url env st :
  refresh_proxies url env st = (Ok tt, refreshed st env, cycle_trace url (response env)).
Proof. apply fetch_and_store_run. Qed.

(** A read of a pool that is neither empty nor expired: nothing happens. *)
Lemma proxies_async_fresh url env st t :
  _proxies st <> [] ->
  __proxy_timestamp st = Some t ->
  ~ (t + __proxy_expiration < now_check env) ->
  proxies_async url env st = (Ok (_proxies st), st, []).
Proof.
  destruct st as [pool stamp cnt]; simpl. intros Hne -> Hfresh.
  destruct pool as [|p ps]; [congruence|].
  unfold proxies_async, bind, gets; simpl.
  destruct (Z.ltb_spec (t + __proxy_expiration) (now_check env)); [lia|].
  reflexivity.
Qed.

(** A read of a stale pool runs one cycle. *)
Lemma proxies_async_stale url env st :
  stale st (now_check env) ->
  proxies_async url env st =
  (Ok (candidates (response env)), refreshed st env, cycle_trace url (response env)).
Proof.
  destruct st as [pool stamp cnt]. unfold stale; simpl. intros Hstale.
  unfold proxies_async, bind, gets; simpl.
  destruct pool as [|p ps]; simpl.
  - rewrite fetch_and_store_run. simpl. now rewrite app_nil_r.
  - destruct Hstale as [Hnil | (t & -> & Hold)]; [congruence|].
    simpl.
    destruct (Z.ltb_spec (t + __proxy_expiration) (now_check env)); [|lia].
    simpl. rewrite fetch_and_store_run. simpl. now rewrite app_nil_r.
Qed.

(** ** The refresh cycle stores what it fetched *)

(** C1 fails at the scenario of the specification: the site lists two
    endpoints, the validator accepts the first only. The cycle stores both,
    the rejected one included; the validated subset has one element. *)
Lemma refresh_stores_rejected_endpoint :
  let env := Sample.site_up Sample.two_lines 5 in
  let pool := _proxies (state_after (refresh_proxies Sample.url env (class_init 0))) in
  pool = ["1.1.1.1:80"; "2.2.2.2:80"] /\
  Sample.first_only 1 "2.2.2.2:80" = Ok false /\
  outcome (__test_proxy Sample.exn_str Sample.first_only Sample.first_only pool
             (class_init 0)) = Ok ["1.1.1.1:80"] /\
  pool <> passed_from Sample.first_only 0 (candidates (response env)).
Proof. vm_compute. repeat split; discriminate. Qed.

(** C1 (as the code has it): a refresh cycle, whether [refresh_proxies] or a
    read of a stale pool, stores exactly the list the fetcher returned and
    stamps it with the cycle's clock reading; no candidate is tested or
    dropped on the way. *)
Theorem refresh_stores_fetched_list url env st :
  _proxies (state_after (refresh_proxies url env st)) = candidates (response env) /\
  __proxy_timestamp (state_after (refresh_proxies url env st)) = Some (now_stamp env) /\
  (stale st (now_check env) ->
   outcome (proxies_async url env st) = Ok (candidates (response env)) /\
   _proxies (state_after (proxies_async url env st)) = candidates (response env) /\
   __proxy_timestamp (state_after (proxies_async url env st)) = Some (now_stamp env)).
Proof.
  rewrite refresh_proxies_run. repeat split; try reflexivity;
    rewrite proxies_async_stale by assumption; reflexivity.
Qed.

Lemma refresh_stores_fetched_list_witness :
  stale (class_init 0) 5 /\
  _proxies (state_after (proxies_async Sample.url (Sample.site_up Sample.two_lines 5)
                           (class_init 0)))
  = ["1.1.1.1:80"; "2.2.2.2:80"].
Proof.
  assert (Hstale : stale (class_init 0) 5) by (left; reflexivity).
  split; [exact Hstale|].
  destruct (refresh_stores_fetched_list Sample.url
              (Sample.site_up Sample.two_lines 5) (class_init 0)) as (_ & _ & H).
  destruct (H Hstale) as (_ & -> & _). reflexivity.
Defined.

(** ** A failing fetch *)

(** C2 fails here: a populated pool, then a cycle while the site is down;
    pool and timestamp both change. *)
Lemma failed_fetch_empties_pool :
  let before := Sample.populated in
  let after := state_after (refresh_proxies Sample.url (Sample.site_down 1000) before) in
  _proxies before = ["1.2.3.4:8080"] /\ _proxies after = [] /\
  __proxy_timestamp before = Some 0 /\ __proxy_timestamp after = Some 1000 /\
  after <> before.
Proof. vm_compute. repeat split; discriminate. Qed.

(** C2 (as the code has it): when the fetch fails, the cycle stores the empty
    list and the cycle's clock reading, whatever the pool held; the error is
    printed and nothing is raised. The same holds for a read that finds the
    pool stale. *)
Theorem failed_fetch_resets_pool url st check msg stamp :
  let env := {| now_check := check; response := RequestException msg;
                now_stamp := stamp |} in
  let emptied := {| _proxies := []; __proxy_timestamp := Some stamp;
                    __refresh_count := __refresh_count st |} in
  let effects := [LogInfo "proxy_manager.py:Getting proxies from proxy site...";
                  HttpGet url;
                  Print ("Error downloading proxies: " +:+ msg);
                  LogInfo "proxy_manager.py:Testing proxies...";
                  LogInfo "proxy_manager.py:Found 0 proxies"] in
  refresh_proxies url env st = (Ok tt, emptied, effects) /\
  (stale st check -> proxies_async url env st = (Ok [], emptied, effects)).
Proof.
  intros env emptied effects. split.
  - rewrite refresh_proxies_run. reflexivity.
  - intros Hstale. rewrite proxies_async_stale by exact Hstale. reflexivity.
Qed.

Lemma failed_fetch_resets_pool_witness :
  stale Sample.populated 400000000 /\
  outcome (proxies_async Sample.url
             {| now_check := 400000000; response := RequestException "down";
                now_stamp := 400000001 |} Sample.populated) = Ok [].
Proof.
  assert (Hstale : stale Sample.populated 400000000).
  { right. exists 0. split; [reflexivity | unfold __proxy_expiration; lia]. }
  split; [exact Hstale|].
  destruct (failed_fetch_resets_pool Sample.url Sample.populated
              400000000 "down" 400000001) as [_ H].
  rewrite (H Hstale). reflexivity.
Defined.

(** ** Reads in a row *)

Lemma fetches_cycle_trace url resp : fetches (cycle_trace url resp) = 1%nat.
Proof. destruct resp; reflexivity. Qed.

(** Reads of a pool that stays fresh: no cycle, everyone gets the pool. *)
Lemma read_all_fresh url envs st t :
  _proxies st <> [] ->
  __proxy_timestamp st = Some t ->
  Forall (fun env => ~ (t + __proxy_expiration < now_check env)) envs ->
  read_all url envs st = (Ok (replicate (length envs) (_proxies st)), st, []).
Proof.
  intros Hne Ht Hall. induction Hall as [|env later Hfresh _ IH]; [reflexivity|].
  simpl. unfold bind.
  rewrite (proxies_async_fresh url env st t Hne Ht Hfresh), IH.
  reflexivity.
Qed.

(** C3 fails here: two reads of the empty (so stale) pool while the site is
    down; each one runs its own cycle. *)
Lemma two_reads_two_fetches :
  let envs := [Sample.site_down 1; Sample.site_down 2] in
  stale (class_init 0) 1 /\
  fetches (trace (read_all Sample.url envs (class_init 0))) = 2%nat.
Proof. split; [left; reflexivity | reflexivity]. Qed.

(** C3 (as the code has it): [N >= 1] reads in a row (which is how the event
    loop runs concurrent calls of a coroutine without suspension point) of a
    stale pool run exactly one cycle when the fetch of the first read
    succeeds and no later read finds the new pool expired; every caller is
    handed that cycle's pool. No lock is involved. *)
Theorem one_cycle_when_fetch_succeeds url st first later body :
  stale st (now_check first) ->
  response first = Responded body ->
  Forall (fun env => ~ (now_stamp first + __proxy_expiration < now_check env)) later ->
  let run := read_all url (first :: later) st in
  fetches (trace run) = 1%nat /\
  outcome run = Ok (replicate (S (length later)) (Py.split Py.newline body)) /\
  state_after run = refreshed st first.
Proof.
  intros Hstale Hresp Hlater run. subst run. simpl. unfold bind.
  rewrite (proxies_async_stale url first st Hstale).
  rewrite (read_all_fresh url later (refreshed st first) (now_stamp first)).
  - unfold ret, trace, outcome, state_after.
    cbn [fst snd length app refreshed _proxies].
    rewrite !app_nil_r, fetches_cycle_trace, Hresp. auto.
  - simpl. rewrite Hresp. apply split_not_nil.
  - reflexivity.
  - exact Hlater.
Qed.

Lemma one_cycle_when_fetch_succeeds_witness :
  fetches (trace (read_all Sample.url
                    [Sample.site_up Sample.two_lines 1; Sample.site_up Sample.two_lines 2;
                     Sample.site_up Sample.two_lines 3] (class_init 0))) = 1%nat.
Proof.
  refine (proj1 (one_cycle_when_fetch_succeeds Sample.url (class_init 0)
                   (Sample.site_up Sample.two_lines 1)
                   [Sample.site_up Sample.two_lines 2; Sample.site_up Sample.two_lines 3]
                   Sample.two_lines _ _ _)).
  - left; reflexivity.
  - reflexivity.
  - repeat constructor; simpl; unfold __proxy_expiration; lia.
Defined.

(** ** Picking a proxy *)

Lemma random_choice_ok {A} draw (seq : list A) (st : manager) :
  seq <> [] -> exists x, random_choice draw seq st = (Ok x, st, []) /\ x ∈ seq.
Proof.
  intros Hne. unfold random_choice, getitem.
  assert (Hlt : (draw mod length seq < length seq)%nat).
  { apply Nat.mod_upper_bound. destruct seq; [congruence | discriminate]. }
  destruct (lookup_lt_is_Some_2 seq _ Hlt) as [x Hx].
  exists x. rewrite Hx. split; [reflexivity|].
  apply list_elem_of_lookup. eauto.
Qed.

Lemma get_random_proxy_run draw st :
  exists choice, get_random_proxy draw st = (Ok choice, st, []) /\
    match choice with
    | None => _proxies st = []
    | Some p => p ∈ _proxies st
    end.
Proof.
  unfold get_random_proxy, bind, gets.
  destruct (_proxies st) as [|p ps] eqn:Hp; simpl.
  - exists None. split; reflexivity.
  - destruct (random_choice_ok draw (p :: ps) st) as (x & Hrun & Hin); [discriminate|].
    rewrite Hrun. exists (Some x). split; [reflexivity | exact Hin].
Qed.

(** C7: on an empty pool [get_random_proxy] returns [None]; in every case it
    returns without raising, leaves the manager as it was, and has no effect
    at all (no download, so no refresh cycle). *)
Theorem get_random_proxy_empty_and_pure draw st :
  (_proxies st = [] -> get_random_proxy draw st = (Ok None, st, [])) /\
  (exists choice, outcome (get_random_proxy draw st) = Ok choice) /\
  state_after (get_random_proxy draw st) = st /\
  trace (get_random_proxy draw st) = [] /\
  fetches (trace (get_random_proxy draw st)) = 0%nat.
Proof.
  destruct (get_random_proxy_run draw st) as (choice & Hrun & Hchoice).
  rewrite Hrun. repeat split; eauto.
  intros Hnil. destruct choice as [p|]; [|reflexivity].
  rewrite Hnil in Hchoice. inversion Hchoice.
Qed.

Lemma get_random_proxy_empty_and_pure_witness :
  get_random_proxy 7 (class_init 0) = (Ok None, class_init 0, []).
Proof.
  exact (proj1 (get_random_proxy_empty_and_pure 7 (class_init 0)) eq_refl).
Defined.

(** ** Statistics *)

Lemma get_stats_run isoformat st t :
  __proxy_timestamp st = Some t ->
  get_stats isoformat st =
  (Ok {| proxy_count := length (_proxies st);
         last_refresh := Some (isoformat t);
         next_refresh := isoformat (t + __proxy_expiration);
         refresh_count := __refresh_count st |}, st, []).
Proof.
  intros Ht. unfold get_stats, _get_next_refresh_time, bind, gets. simpl.
  rewrite Ht. reflexivity.
Qed.

(** Without a timestamp (a state the class never reaches) the two fields are
    unrelated. *)
Lemma get_stats_without_timestamp isoformat st :
  __proxy_timestamp st = None ->
  exists s, outcome (get_stats isoformat st) = Ok s /\
            last_refresh s = None /\ next_refresh s = "Unknown".
Proof.
  intros Ht. unfold get_stats, _get_next_refresh_time, bind, gets. simpl.
  rewrite Ht. eexists. repeat split.
Qed.

Lemma get_stats_state isoformat st : state_after (get_stats isoformat st) = st.
Proof.
  unfold get_stats, _get_next_refresh_time, bind, gets. simpl.
  destruct (__proxy_timestamp st); reflexivity.
Qed.

(** Every method leaves a timestamp in place, and none touches the counter. *)
Lemma proxies_async_keeps url env st t :
  __proxy_timestamp st = Some t ->
  (exists t', __proxy_timestamp (state_after (proxies_async url env st)) = Some t') /\
  __refresh_count (state_after (proxies_async url env st)) = __refresh_count st.
Proof.
  intros Ht.
  destruct (_proxies st) as [|p ps] eqn:Hp.
  - rewrite proxies_async_stale by (left; exact Hp). simpl. eauto.
  - destruct (Z.ltb_spec (t + __proxy_expiration) (now_check env)).
    + rewrite proxies_async_stale by (right; eauto). simpl. eauto.
    + rewrite (proxies_async_fresh url env st t) by (congruence || lia). simpl. eauto.
Qed.

Lemma run_call_keeps url isoformat c st t :
  __proxy_timestamp st = Some t ->
  (exists t', __proxy_timestamp (run_call url isoformat c st) = Some t') /\
  __refresh_count (run_call url isoformat c st) = __refresh_count st.
Proof.
  intros Ht. destruct c as [env|env|draw|]; simpl.
  - apply (proxies_async_keeps url env st t Ht).
  - rewrite refresh_proxies_run. simpl. eauto.
  - destruct (get_random_proxy_run draw st) as (choice & -> & _). simpl. eauto.
  - rewrite get_stats_state. eauto.
Qed.

Lemma reachable_invariant url isoformat st :
  reachable url isoformat st ->
  (exists t, __proxy_timestamp st = Some t) /\ __refresh_count st = 0.
Proof.
  induction 1 as [now | st c _ [[t Ht] Hcount]].
  - simpl. eauto.
  - destruct (run_call_keeps url isoformat c st t Ht) as [Hstamp Hsame].
    split; [exact Hstamp | congruence].
Qed.

(** C6: in every state the class can reach, [get_stats] returns, and its
    [next_refresh] is the ISO form of the instant whose ISO form is its
    [last_refresh], moved forward by the expiration (six minutes). *)
Theorem next_refresh_is_last_plus_expiration url isoformat st :
  reachable url isoformat st ->
  exists s t,
    outcome (get_stats isoformat st) = Ok s /\
    last_refresh s = Some (isoformat t) /\
    next_refresh s = isoformat (t + __proxy_expiration) /\
    __proxy_expiration = 360000000.
Proof.
  intros Hreach.
  destruct (reachable_invariant url isoformat st Hreach) as [[t Ht] _].
  rewrite (get_stats_run isoformat st t Ht).
  eexists _, t. repeat split.
Qed.

Lemma next_refresh_is_last_plus_expiration_witness :
  exists s,
    outcome (get_stats Sample.isoformat
               (run_call Sample.url Sample.isoformat
                  (CallRefreshProxies (Sample.site_up Sample.two_lines 1000))
                  (class_init 0))) = Ok s /\
    last_refresh s = Some "1000" /\ next_refresh s = "360001000".
Proof.
  destruct (next_refresh_is_last_plus_expiration Sample.url Sample.isoformat
              (run_call Sample.url Sample.isoformat
                 (CallRefreshProxies (Sample.site_up Sample.two_lines 1000))
                 (class_init 0))
              (reachable_call _ _ _ _ (reachable_init _ _ 0)))
    as (s & t & Hs & _).
  exists s. split; [exact Hs|].
  vm_compute in Hs. injection Hs as <-. split; reflexivity.
Defined.

(** ** The refresh counter *)

(** However many cycles ran, the counter that [get_stats] reports is the one
    of the class body. *)
Lemma refresh_count_never_moves url isoformat st :
  reachable url isoformat st ->
  exists s, outcome (get_stats isoformat st) = Ok s /\ refresh_count s = 0.
Proof.
  intros Hreach.
  destruct (reachable_invariant url isoformat st Hreach) as [[t Ht] Hzero].
  rewrite (get_stats_run isoformat st t Ht). eexists. split; [reflexivity|].
  exact Hzero.
Qed.

(** C4, at the scenario of the specification: one successful cycle from the
    class body (the fetched list is stored), and [get_stats] still reports a
    [refresh_count] of 0 where the claim expects 1. *)
Theorem refresh_count_after_one_cycle :
  let env := Sample.site_up Sample.two_lines 1000 in
  let run := refresh_proxies Sample.url env (class_init 0) in
  outcome run = Ok tt /\
  fetches (trace run) = 1%nat /\
  _proxies (state_after run) = ["1.1.1.1:80"; "2.2.2.2:80"] /\
  exists s, outcome (get_stats Sample.isoformat (state_after run)) = Ok s /\
            refresh_count s = 0.
Proof.
  repeat split.
  apply (refresh_count_never_moves Sample.url Sample.isoformat).
  apply (reachable_call _ _ _ (CallRefreshProxies _)). constructor.
Qed.

Lemma run_calls_reachable url isoformat cs st :
  reachable url isoformat st -> reachable url isoformat (run_calls url isoformat cs st).
Proof.
  revert st. induction cs as [|c cs IH]; intros st Hreach; [exact Hreach|].
  simpl. apply IH. now constructor.
Qed.

(** The count of cycles grows with every refresh, the reported counter does
    not follow. *)
Lemma cycles_refresh url isoformat env cs st :
  cycles url isoformat (CallRefreshProxies env :: cs) st =
  S (cycles url isoformat cs (refreshed st env)).
Proof.
  simpl. rewrite refresh_proxies_run. unfold trace, state_after. cbn [fst snd].
  now rewrite fetches_cycle_trace.
Qed.

Lemma refresh_count_ignores_cycles url isoformat cs now :
  exists s,
    outcome (get_stats isoformat (run_calls url isoformat cs (class_init now))) = Ok s /\
    refresh_count s = 0.
Proof.
  apply (refresh_count_never_moves url), run_calls_reachable. constructor.
Qed.

(** ** The primary fetcher *)

(** C5 fails here: a body that ends with a newline (as text files do); the
    last candidate is the empty string. *)
Lemma fetched_list_has_blank_entry :
  let body := "1.1.1.1:80" +:+ String Py.newline EmptyString in
  outcome (__get_proxies Sample.url (Responded body) (class_init 0))
  = Ok ["1.1.1.1:80"; EmptyString] /\
  In EmptyString ["1.1.1.1:80"; EmptyString].
Proof. split; [reflexivity | right; left; reflexivity]. Qed.

(** C5 (as the code has it): on a successful fetch the result is the body
    split on newline characters and nothing is discarded: joining the result
    with newlines gives the body back, no entry contains a newline, and there
    is one entry more than the body has newlines (blank lines are entries,
    the empty string among them). Nothing is raised, nothing stored. *)
Theorem fetched_list_is_plain_split url body st :
  exists l,
    __get_proxies url (Responded body) st = (Ok l, st, [HttpGet url]) /\
    l = Py.split Py.newline body /\
    Py.join Py.newline l = body /\
    Forall (fun entry => Py.contains Py.newline entry = false) l /\
    length l = S (Py.count Py.newline body).
Proof.
  exists (Py.split Py.newline body). split; [reflexivity|]. split; [reflexivity|].
  split; [apply join_split|]. split; [apply split_pieces_free | apply length_split].
Qed.

(** ** The secondary fetcher *)

(** When the download succeeds the variable is bound before the [return]:
    an [UnboundLocalError] is then never raised. *)
Lemma ip_port_list_no_unbound (json : Type) (py_str : json -> string) (S : Type)
    (proxies : list (gmap string json)) (st : S) :
  (exists l, ip_port_list json py_str proxies st = (Ok l, st, [])) \/
  (exists key, ip_port_list json py_str proxies st = (Raise (KeyError key), st, [])).
Proof.
  induction proxies as [|proxy rest IH]; simpl.
  - left. eexists. reflexivity.
  - case_bool_decide as Hip.
    + destruct Hip as [ip Hip]. unfold bind, dict_get. rewrite Hip. simpl.
      destruct (proxy !! "port") as [port|]; simpl.
      * destruct IH as [[l ->] | [key ->]]; [left | right]; eexists; reflexivity.
      * right. eexists. reflexivity.
    + exact IH.
Qed.

Lemma secondary_fetcher_bound_on_success (json : Type) (py_str : json -> string)
    (S : Type) (proxies : list (gmap string json)) (st : S) :
  outcome (__get_proxies_2 json py_str (Responded proxies) st)
  <> Raise (UnboundLocalError "ip_list").
Proof.
  unfold __get_proxies_2, bind, emit.
  destruct (ip_port_list_no_unbound json py_str S proxies st) as [[l ->] | [key ->]];
    simpl; discriminate.
Qed.

(** C10: when the download fails (a [RequestException] from [requests.get],
    [raise_for_status] or [json]), [__get_proxies_2] prints the error and
    then raises [UnboundLocalError] for [ip_list] at its [return]: it neither
    returns a list nor lets the fetch error through. This is the only way to
    that error: after a download that succeeded [ip_list] is bound. *)
Theorem secondary_fetcher_unbound_local (json : Type) (py_str : json -> string)
    (S : Type) (st : S) :
  (forall msg,
     __get_proxies_2 json py_str (RequestException msg) st =
     (Raise (UnboundLocalError "ip_list"), st,
      [HttpGet proxifly_url; Print ("Error downloading proxies: " +:+ msg)])) /\
  (forall resp,
     outcome (__get_proxies_2 json py_str resp st) = Raise (UnboundLocalError "ip_list")
     <-> exists msg, resp = RequestException msg).
Proof.
  split; [reflexivity|].
  intros [proxies|msg]; split.
  - intros Hraise. now apply secondary_fetcher_bound_on_success in Hraise.
  - intros [msg Hresp]. discriminate.
  - intros _. eauto.
  - intros _. reflexivity.
Qed.

(** ** The batch tester *)

Lemma passed_from_shift oracle i proxies :
  passed_from (oracle ∘ S) i proxies = passed_from oracle (S i) proxies.
Proof.
  revert i. induction proxies as [|p rest IH]; intros i; simpl; [reflexivity|].
  rewrite IH. reflexivity.
Qed.

Lemma debug_log_shift exn_str oracle i proxies :
  debug_log exn_str (oracle ∘ S) i proxies
  = debug_log exn_str oracle (S i) proxies.
Proof.
  revert i. induction proxies as [|p rest IH]; intros i; simpl; [reflexivity|].
  rewrite IH. reflexivity.
Qed.

Lemma elem_of_passed_from oracle k proxies p :
  p ∈ passed_from oracle k proxies <->
  exists j, proxies !! j = Some p /\ oracle (k + j)%nat p = Ok true.
Proof.
  revert k. induction proxies as [|q rest IH]; intros k; simpl.
  - split; [inversion 1 | intros (j & Hj & _); discriminate].
  - assert (Hrest : p ∈ passed_from oracle (S k) rest <->
                    exists j, rest !! j = Some p /\ oracle (k + S j)%nat p = Ok true).
    { rewrite IH. split; intros (j & Hj & Hok); exists j; split; try assumption;
        [replace (k + S j)%nat with (S k + j)%nat by lia
        | replace (S k + j)%nat with (k + S j)%nat by lia]; assumption. }
    assert (Hskip : oracle k q <> Ok true ->
              (p ∈ passed_from oracle (S k) rest <->
               exists j, (q :: rest) !! j = Some p /\ oracle (k + j)%nat p = Ok true)).
    { intros Hq. rewrite Hrest. split.
      - intros (j & Hj & Hok). exists (S j). auto.
      - intros ([|j] & Hj & Hok); simpl in Hj.
        + injection Hj as ->. rewrite Nat.add_0_r in Hok. congruence.
        + eauto. }
    destruct (oracle k q) as [[|]|e] eqn:Hq; try (apply Hskip; congruence).
    rewrite elem_of_cons, Hrest. split.
    + intros [-> | (j & Hj & Hok)].
      * exists 0%nat. rewrite Nat.add_0_r. auto.
      * exists (S j). auto.
    + intros ([|j] & Hj & Hok); simpl in Hj.
      * injection Hj as ->. now left.
      * right. eauto.
Qed.

Lemma passed_from_sublist oracle k proxies :
  sublist (passed_from oracle k proxies) proxies.
Proof.
  revert k. induction proxies as [|p rest IH]; intros k; simpl; [constructor|].
  destruct (oracle k p) as [[|]|e]; [apply sublist_skip | apply sublist_cons ..];
    apply IH.
Qed.

Lemma batch_collect_run exn_str all suffix :
  forall i oracle acc (st : manager),
    (forall j p, suffix !! j = Some p -> all !! (i + j)%nat = Some p) ->
    batch_collect exn_str all i (imap oracle suffix) acc st =
    (Ok (acc ++ passed_from oracle 0 suffix), st, debug_log exn_str oracle 0 suffix).
Proof.
  induction suffix as [|p rest IH]; intros i oracle acc st Hall.
  - simpl. unfold ret. now rewrite app_nil_r.
  - assert (Hp : all !! i = Some p).
    { rewrite <- (Nat.add_0_r i). now apply Hall. }
    assert (Hrest : forall j q, rest !! j = Some q -> all !! (S i + j)%nat = Some q).
    { intros j q Hj. replace (S i + j)%nat with (i + S j)%nat by lia. now apply Hall. }
    cbn [imap batch_collect passed_from debug_log].
    destruct (oracle 0%nat p) as [[|]|e] eqn:Hq.
    + unfold bind, getitem. rewrite Hp. cbn [ret].
      rewrite (IH (S i) _ _ st Hrest).
      rewrite passed_from_shift, debug_log_shift, <- app_assoc. reflexivity.
    + rewrite (IH (S i) _ _ st Hrest).
      rewrite passed_from_shift, debug_log_shift. reflexivity.
    + unfold bind, getitem, emit. rewrite Hp. cbn [ret].
      rewrite (IH (S i) _ _ st Hrest).
      rewrite passed_from_shift, debug_log_shift. reflexivity.
Qed.

Lemma test_proxy_batch_run exn_str oracle proxies (st : manager) :
  _test_proxy_batch exn_str oracle proxies st =
  (Ok (passed_from oracle 0 proxies), st, debug_log exn_str oracle 0 proxies).
Proof.
  unfold _test_proxy_batch, try_except, gather.
  rewrite (batch_collect_run exn_str proxies proxies 0 oracle [] st); [reflexivity|].
  intros j p Hj. exact Hj.
Qed.

Lemma sync_collect_run exn_str oracle proxies :
  forall i acc (st : manager),
    sync_collect exn_str oracle i proxies acc st =
    (Ok (acc ++ passed_from oracle i proxies), st, debug_log exn_str oracle i proxies).
Proof.
  induction proxies as [|p rest IH]; intros i acc st; simpl.
  - unfold ret. now rewrite app_nil_r.
  - destruct (oracle i p) as [[|]|e].
    + rewrite IH, <- app_assoc. reflexivity.
    + apply IH.
    + unfold bind, emit. rewrite IH. reflexivity.
Qed.

(** C8: a batch keeps exactly the candidates at positions whose validation
    returned [True], in order. So nothing in the result comes from a position
    whose validation returned [False] or raised; a candidate whose validation
    returned [True] is in the result whatever happened to the others; the
    batch itself never raises and leaves the manager alone. The sequential
    fallback computes the same list. *)
Theorem batch_keeps_exactly_the_passed exn_str oracle proxies (st : manager) :
  let kept := passed_from oracle 0 proxies in
  _test_proxy_batch exn_str oracle proxies st =
    (Ok kept, st, debug_log exn_str oracle 0 proxies) /\
  _test_proxy_sync exn_str oracle proxies st =
    (Ok kept, st, debug_log exn_str oracle 0 proxies) /\
  sublist kept proxies /\
  (forall p, p ∈ kept ->
     exists i, proxies !! i = Some p /\ oracle i p = Ok true) /\
  (forall i p, proxies !! i = Some p -> oracle i p = Ok true -> p ∈ kept) /\
  (NoDup proxies ->
   forall i p, proxies !! i = Some p -> oracle i p <> Ok true -> p ∉ kept).
Proof.
  intros kept. subst kept.
  split; [apply test_proxy_batch_run|].
  split; [apply (sync_collect_run exn_str oracle proxies 0 [] st)|].
  split; [apply passed_from_sublist|].
  split; [|split].
  - intros p Hin. apply elem_of_passed_from in Hin. exact Hin.
  - intros i p Hi Hok. apply elem_of_passed_from. eauto.
  - intros Hnodup i p Hi Hbad Hin.
    apply elem_of_passed_from in Hin. destruct Hin as (j & Hj & Hok). simpl in Hok.
    assert (i = j) by (eapply NoDup_lookup; eauto). subst j. contradiction.
Qed.

(** Three candidates: the first passes, the validation of the second raises,
    the third passes. *)
Lemma batch_keeps_exactly_the_passed_witness :
  let oracle := fun (i : nat) (p : string) =>
    if String.eqb p "5.6.7.8:3128" then Raise (Exception "Connection failed")
    else Ok true in
  let proxies := ["1.2.3.4:8080"; "5.6.7.8:3128"; "9.10.11.12:8080"] in
  NoDup proxies /\
  "9.10.11.12:8080" ∈ passed_from oracle 0 proxies /\
  "5.6.7.8:3128" ∉ passed_from oracle 0 proxies.
Proof.
  intros oracle proxies.
  assert (Hnodup : NoDup proxies).
  { subst proxies. repeat constructor; rewrite ?elem_of_cons; try inversion 1;
      intuition (try discriminate); match goal with H : _ ∈ [] |- _ => inversion H end. }
  destruct (batch_keeps_exactly_the_passed Sample.exn_str oracle proxies (class_init 0))
    as (_ & _ & _ & _ & Hin & Hout).
  split; [exact Hnodup|]. split.
  - apply (Hin 2%nat); reflexivity.
  - apply (Hout Hnodup 1%nat); [reflexivity | discriminate].
Defined.

(** ** The validator and the batches of [__test_proxy] *)

(** With a header list that is not empty the validator never raises: it
    answers [True] for status 200 and [False] for everything else. *)
Lemma test_single_proxy_run (header_set : Type) (headers_list : list header_set)
    draw answer (st : manager) :
  headers_list <> [] ->
  __test_single_proxy header_set headers_list draw answer st =
  (Ok match answer with
      | Status code => code =? 200
      | ProbeFailed => false
      end, st, []).
Proof.
  intros Hne. unfold __test_single_proxy, bind.
  destruct (random_choice_ok draw headers_list st Hne) as (h & -> & _).
  destruct answer as [code|]; [destruct (code =? 200)|]; reflexivity.
Qed.

Lemma passed_from_offset oracle i k proxies :
  passed_from (fun j => oracle (i + j)%nat) k proxies = passed_from oracle (i + k) proxies.
Proof.
  revert k. induction proxies as [|p rest IH]; intros k; simpl; [reflexivity|].
  rewrite IH, Nat.add_succ_r. reflexivity.
Qed.

Lemma debug_log_offset exn_str oracle i k proxies :
  debug_log exn_str (fun j => oracle (i + j)%nat) k proxies
  = debug_log exn_str oracle (i + k) proxies.
Proof.
  revert k. induction proxies as [|p rest IH]; intros k; simpl; [reflexivity|].
  rewrite IH, Nat.add_succ_r. reflexivity.
Qed.

Lemma passed_from_app oracle k l1 l2 :
  passed_from oracle k (l1 ++ l2)
  = passed_from oracle k l1 ++ passed_from oracle (k + length l1) l2.
Proof.
  revert k. induction l1 as [|p rest IH]; intros k; simpl.
  - now rewrite Nat.add_0_r.
  - rewrite IH, Nat.add_succ_r.
    destruct (oracle k p) as [[|]|e]; reflexivity.
Qed.

Lemma debug_log_app exn_str oracle k l1 l2 :
  debug_log exn_str oracle k (l1 ++ l2)
  = debug_log exn_str oracle k l1 ++ debug_log exn_str oracle (k + length l1) l2.
Proof.
  revert k. induction l1 as [|p rest IH]; intros k; simpl.
  - now rewrite Nat.add_0_r.
  - rewrite IH, Nat.add_succ_r.
    destruct (oracle k p) as [[|]|e]; reflexivity.
Qed.

(** A prefix of [n + m] candidates is a first batch of [n] and the rest. *)
Lemma passed_from_chunk oracle k n m (l : list string) :
  passed_from oracle k (take (n + m) l)
  = passed_from oracle k (take n l) ++ passed_from oracle (k + n) (take m (drop n l)).
Proof.
  rewrite <- take_take_drop, passed_from_app.
  destruct (le_lt_dec n (length l)) as [Hle|Hlt].
  - now rewrite length_take_le.
  - rewrite (drop_ge l n) by lia. now rewrite take_nil.
Qed.

Lemma debug_log_chunk exn_str oracle k n m (l : list string) :
  debug_log exn_str oracle k (take (n + m) l)
  = debug_log exn_str oracle k (take n l)
    ++ debug_log exn_str oracle (k + n) (take m (drop n l)).
Proof.
  rewrite <- take_take_drop, debug_log_app.
  destruct (le_lt_dec n (length l)) as [Hle|Hlt].
  - now rewrite length_take_le.
  - rewrite (drop_ge l n) by lia. now rewrite take_nil.
Qed.

Lemma test_proxy_loop_run exn_str oracle proxies n :
  forall a acc (st : manager),
    test_proxy_loop exn_str oracle proxies
      (map (fun k => (k * batch_size)%nat) (seq a n)) acc st =
    (Ok (acc ++ passed_from oracle (a * batch_size)
                  (take (n * batch_size) (drop (a * batch_size) proxies))),
     st,
     debug_log exn_str oracle (a * batch_size)
       (take (n * batch_size) (drop (a * batch_size) proxies))).
Proof.
  induction n as [|n IH]; intros a acc st.
  - simpl. unfold ret. now rewrite app_nil_r.
  - cbn [seq map test_proxy_loop]. unfold bind.
    rewrite test_proxy_batch_run, IH.
    rewrite !passed_from_offset, !debug_log_offset, !Nat.add_0_r.
    change (S n * batch_size)%nat with (batch_size + n * batch_size)%nat.
    rewrite passed_from_chunk, debug_log_chunk, drop_drop, <- app_assoc.
    change (S a * batch_size)%nat with (batch_size + a * batch_size)%nat.
    rewrite (Nat.add_comm batch_size (a * batch_size)). reflexivity.
Qed.

Lemma range_covers len :
  (len <= (len + batch_size - 1) / batch_size * batch_size)%nat.
Proof.
  unfold batch_size.
  pose proof (Nat.div_mod_eq (len + 20 - 1) 20).
  pose proof (Nat.mod_upper_bound (len + 20 - 1) 20).
  lia.
Qed.

(** [__test_proxy] over the whole list: the batches of twenty, put together,
    keep exactly the candidates whose validation returned [True]; the
    sequential fallback is never entered. *)
Lemma test_proxy_run exn_str oracle fallback proxies (st : manager) :
  __test_proxy exn_str oracle fallback proxies st =
  (Ok (passed_from oracle 0 proxies), st, debug_log exn_str oracle 0 proxies).
Proof.
  unfold __test_proxy, try_except, range_step.
  rewrite test_proxy_loop_run. simpl drop.
  rewrite take_ge by apply range_covers. reflexivity.
Qed.


(** ** Which list a reader holds *)

Lemma heap_fetch_and_store_run url env st :
  Objects.fetch_and_store url env st =
  (Ok tt, Objects.refreshed (response env) (now_stamp env) st,
   cycle_trace url (response env)).
Proof.
  unfold Objects.fetch_and_store, Objects.refreshed, cycle_trace, Objects.__get_proxies,
    bind, emit, gets, Objects.set_proxies, Objects.set_proxy_timestamp, modify,
    Objects.new_list, ret, Objects.contents.
  destruct (response env); simpl; rewrite lookup_insert_eq; reflexivity.
Qed.

Lemma heap_contents_refreshed resp stamp st :
  Objects.contents (Objects.proxies_ref (Objects.refreshed resp stamp st))
    (Objects.refreshed resp stamp st) = candidates resp.
Proof.
  unfold Objects.contents, Objects.refreshed. simpl. rewrite lookup_insert_eq.
  destruct resp; reflexivity.
Qed.

Lemma heap_contents_refreshed_old resp stamp st r :
  (r < Objects.next_ref st)%nat ->
  Objects.contents r (Objects.refreshed resp stamp st) = Objects.contents r st.
Proof.
  intros Hlt. unfold Objects.contents, Objects.refreshed. simpl.
  now rewrite lookup_insert_ne by lia.
Qed.

Lemma heap_contents_emptied_old st r :
  (r < Objects.next_ref st)%nat ->
  Objects.contents r (Objects.emptied st) = Objects.contents r st.
Proof.
  intros Hlt. unfold Objects.contents, Objects.emptied. simpl.
  now rewrite lookup_insert_ne by lia.
Qed.

(** The three ways a read can go, on the heap. *)
Lemma heap_read_fresh url env st t :
  Objects.contents (Objects.proxies_ref st) st <> [] ->
  Objects.proxy_timestamp st = Some t ->
  ~ (t + __proxy_expiration < now_check env) ->
  Objects.proxies_async url env st = (Ok (Objects.proxies_ref st), st, []).
Proof.
  intros Hne Ht Hfresh.
  unfold Objects.proxies_async, bind, gets. cbn beta iota.
  destruct (Objects.contents (Objects.proxies_ref st) st) as [|p ps] eqn:Hp;
    [congruence|].
  cbn [truthy negb]. rewrite Ht. cbn [datetime_add ret].
  destruct (Z.ltb_spec (t + __proxy_expiration) (now_check env)); [lia|].
  cbn [ret app]. rewrite Hp. reflexivity.
Qed.

Lemma heap_read_empty url env st :
  Objects.contents (Objects.proxies_ref st) st = [] ->
  Objects.proxies_async url env st =
  (Ok (Objects.next_ref st), Objects.refreshed (response env) (now_stamp env) st,
   cycle_trace url (response env)).
Proof.
  intros Hnil.
  unfold Objects.proxies_async, bind, gets. cbn beta iota.
  rewrite Hnil. cbn [truthy negb ret app]. rewrite Hnil. cbn [truthy negb].
  rewrite heap_fetch_and_store_run. cbn [app Objects.proxies_ref Objects.refreshed].
  now rewrite app_nil_r.
Qed.

Lemma heap_read_expired url env st t :
  Objects.contents (Objects.proxies_ref st) st <> [] ->
  Objects.proxy_timestamp st = Some t ->
  t + __proxy_expiration < now_check env ->
  Objects.proxies_async url env st =
  (Ok (S (Objects.next_ref st)),
   Objects.refreshed (response env) (now_stamp env) (Objects.emptied st),
   cycle_trace url (response env)).
Proof.
  intros Hne Ht Hold.
  unfold Objects.proxies_async, bind, gets. cbn beta iota.
  destruct (Objects.contents (Objects.proxies_ref st) st) as [|p ps] eqn:Hp;
    [congruence|].
  cbn [truthy negb]. rewrite Ht. cbn [datetime_add ret].
  destruct (Z.ltb_spec (t + __proxy_expiration) (now_check env)); [|lia].
  unfold Objects.new_list, Objects.set_proxies, modify.
  cbn [app Objects.proxies_ref Objects.next_ref Objects.cells
       Objects.proxy_timestamp Objects.refresh_counter].
  fold (Objects.emptied st).
  assert (Hempty : Objects.contents (Objects.next_ref st) (Objects.emptied st) = []).
  { unfold Objects.contents, Objects.emptied. simpl. now rewrite lookup_insert_eq. }
  rewrite Hempty. cbn [truthy negb].
  rewrite heap_fetch_and_store_run.
  cbn [app Objects.proxies_ref Objects.next_ref Objects.refreshed Objects.emptied].
  now rewrite app_nil_r.
Qed.

Lemma proxies_async_no_timestamp url env st :
  _proxies st <> [] -> __proxy_timestamp st = None ->
  proxies_async url env st = (Raise TypeError, st, []).
Proof.
  destruct st as [pool stamp cnt]; simpl. intros Hne ->.
  destruct pool; [congruence | reflexivity].
Qed.

Lemma heap_read_no_timestamp url env st :
  Objects.contents (Objects.proxies_ref st) st <> [] ->
  Objects.proxy_timestamp st = None ->
  Objects.proxies_async url env st = (Raise TypeError, st, []).
Proof.
  intros Hne Ht. unfold Objects.proxies_async, bind, gets. cbn beta iota.
  destruct (Objects.contents (Objects.proxies_ref st) st); [congruence|].
  cbn [truthy]. rewrite Ht. reflexivity.
Qed.

Lemma view_refreshed env st :
  Objects.view (Objects.refreshed (response env) (now_stamp env) st)
  = refreshed (Objects.view st) env.
Proof.
  unfold Objects.view. rewrite heap_contents_refreshed. reflexivity.
Qed.

(** The heap model and the first model agree: same effects, same manager
    (seen through [view]), and the reference returned on the heap designates
    the list the first model returns. *)
Lemma heap_read_simulates url env st :
  let h := Objects.proxies_async url env st in
  let v := proxies_async url env (Objects.view st) in
  trace h = trace v /\
  Objects.view (state_after h) = state_after v /\
  match outcome h with
  | Ok r => outcome v = Ok (Objects.contents r (state_after h))
  | Raise e => outcome v = Raise e
  end.
Proof.
  intros h v. subst h v.
  destruct (Objects.contents (Objects.proxies_ref st) st) as [|p ps] eqn:Hp.
  - rewrite heap_read_empty by exact Hp.
    rewrite proxies_async_stale by (left; exact Hp).
    unfold trace, state_after, outcome. cbn [fst snd].
    rewrite view_refreshed.
    change (Objects.next_ref st)
      with (Objects.proxies_ref (Objects.refreshed (response env) (now_stamp env) st)).
    now rewrite heap_contents_refreshed.
  - assert (Hne : Objects.contents (Objects.proxies_ref st) st <> []) by congruence.
    destruct (Objects.proxy_timestamp st) as [t|] eqn:Ht.
    + destruct (Z.ltb_spec (t + __proxy_expiration) (now_check env)).
      * rewrite (heap_read_expired url env st t) by assumption.
        rewrite proxies_async_stale by (right; exists t; auto).
        unfold trace, state_after, outcome. cbn [fst snd].
        rewrite view_refreshed.
        change (S (Objects.next_ref st))
          with (Objects.proxies_ref
                  (Objects.refreshed (response env) (now_stamp env) (Objects.emptied st))).
        now rewrite heap_contents_refreshed.
      * rewrite (heap_read_fresh url env st t) by (assumption || lia).
        rewrite (proxies_async_fresh url env (Objects.view st) t)
          by (assumption || lia).
        unfold trace, state_after, outcome. cbn [fst snd]. auto.
    + rewrite heap_read_no_timestamp by assumption.
      rewrite proxies_async_no_timestamp by assumption.
      unfold trace, state_after, outcome. cbn [fst snd]. auto.
Qed.

Lemma heap_refresh_simulates url env st :
  trace (Objects.refresh_proxies url env st)
  = trace (refresh_proxies url env (Objects.view st)) /\
  Objects.view (state_after (Objects.refresh_proxies url env st))
  = state_after (refresh_proxies url env (Objects.view st)).
Proof.
  unfold Objects.refresh_proxies. rewrite heap_fetch_and_store_run, refresh_proxies_run.
  unfold trace, state_after. cbn [fst snd]. now rewrite view_refreshed.
Qed.

(** No method changes a list object that exists already. *)
Lemma heap_read_frames url env st r :
  (r < Objects.next_ref st)%nat ->
  Objects.contents r (state_after (Objects.proxies_async url env st))
  = Objects.contents r st /\
  (Objects.next_ref st <= Objects.next_ref (state_after (Objects.proxies_async url env st)))%nat.
Proof.
  intros Hlt.
  destruct (Objects.contents (Objects.proxies_ref st) st) as [|p ps] eqn:Hp.
  - rewrite heap_read_empty by exact Hp. unfold state_after. cbn [fst snd].
    rewrite heap_contents_refreshed_old by exact Hlt. simpl. split; [reflexivity | lia].
  - assert (Hne : Objects.contents (Objects.proxies_ref st) st <> []) by congruence.
    destruct (Objects.proxy_timestamp st) as [t|] eqn:Ht.
    + destruct (Z.ltb_spec (t + __proxy_expiration) (now_check env)).
      * rewrite (heap_read_expired url env st t) by assumption.
        unfold state_after. cbn [fst snd].
        rewrite heap_contents_refreshed_old by (simpl; lia).
        rewrite heap_contents_emptied_old by exact Hlt. simpl. split; [reflexivity | lia].
      * rewrite (heap_read_fresh url env st t) by (assumption || lia).
        unfold state_after. cbn [fst snd]. split; [reflexivity | lia].
    + rewrite heap_read_no_timestamp by assumption.
      unfold state_after. cbn [fst snd]. split; [reflexivity | lia].
Qed.

(** C9 fails here: a read of the two-line list; the caller then appends to
    the list it was handed, and the manager's pool has grown with it. The
    list handed out is the manager's own. *)
Lemma reader_append_changes_pool :
  let run := Objects.proxies_async Sample.url (Sample.site_up Sample.two_lines 5)
               (Sample.heap_init 0) in
  let st := state_after run in
  exists r,
    outcome run = Ok r /\
    r = Objects.proxies_ref st /\
    _proxies (Objects.view st) = ["1.1.1.1:80"; "2.2.2.2:80"] /\
    _proxies (Objects.view (state_after (Objects.list_append r "6.6.6.6:66" st)))
    = ["1.1.1.1:80"; "2.2.2.2:80"; "6.6.6.6:66"].
Proof. exists 1%nat. vm_compute. repeat split. Qed.

Lemma heap_append_contents r x st l :
  Objects.cells st !! r = Some l ->
  Objects.contents r (state_after (Objects.list_append r x st)) = l ++ [x].
Proof.
  intros Hl. unfold Objects.contents, Objects.list_append, modify, state_after. simpl.
  now rewrite lookup_alter_eq, Hl.
Qed.

Lemma heap_contents_cell r st p ps :
  Objects.contents r st = p :: ps -> Objects.cells st !! r = Some (p :: ps).
Proof.
  unfold Objects.contents. destruct (Objects.cells st !! r); simpl; congruence.
Qed.

(** What a read returns: the reference bound to [_proxies], an existing
    list object. *)
Lemma heap_read_result url env st r :
  (Objects.proxies_ref st < Objects.next_ref st)%nat ->
  outcome (Objects.proxies_async url env st) = Ok r ->
  let st' := state_after (Objects.proxies_async url env st) in
  r = Objects.proxies_ref st' /\ (r < Objects.next_ref st')%nat /\
  Objects.cells st' !! r = Some (Objects.contents r st').
Proof.
  intros Hwf Hok st'. subst st'. revert Hok.
  destruct (Objects.contents (Objects.proxies_ref st) st) as [|p ps] eqn:Hp.
  - rewrite heap_read_empty by exact Hp. unfold outcome, state_after. cbn [fst snd].
    intros [= <-]. unfold Objects.contents. simpl. rewrite lookup_insert_eq.
    repeat split. lia.
  - assert (Hne : Objects.contents (Objects.proxies_ref st) st <> []) by congruence.
    destruct (Objects.proxy_timestamp st) as [t|] eqn:Ht.
    + destruct (Z.ltb_spec (t + __proxy_expiration) (now_check env)).
      * rewrite (heap_read_expired url env st t) by assumption.
        unfold outcome, state_after. cbn [fst snd].
        intros [= <-]. unfold Objects.contents. simpl. rewrite lookup_insert_eq.
        repeat split. lia.
      * rewrite (heap_read_fresh url env st t) by (assumption || lia).
        unfold outcome, state_after. cbn [fst snd].
        intros [= <-]. repeat split; [exact Hwf|].
        rewrite Hp. now apply heap_contents_cell.
    + rewrite heap_read_no_timestamp by assumption. discriminate.
Qed.

(** C9 (as the code has it): a read returns the reference bound to
    [_proxies], the manager's own list object and no copy, so an append by
    the caller is an append to the pool. What a reader can rely on: no later
    read or refresh changes that object, because a cycle builds a new list
    and binds [_proxies] to it. *)
Theorem read_returns_own_list url env st r :
  (Objects.proxies_ref st < Objects.next_ref st)%nat ->
  outcome (Objects.proxies_async url env st) = Ok r ->
  let st' := state_after (Objects.proxies_async url env st) in
  r = Objects.proxies_ref st' /\
  (forall x,
     _proxies (Objects.view (state_after (Objects.list_append r x st')))
     = _proxies (Objects.view st') ++ [x]) /\
  (forall env',
     Objects.contents r (state_after (Objects.refresh_proxies url env' st'))
     = Objects.contents r st' /\
     Objects.contents r (state_after (Objects.proxies_async url env' st'))
     = Objects.contents r st').
Proof.
  intros Hwf Hok st'.
  destruct (heap_read_result url env st r Hwf Hok) as (Hown & Hlt & Hcell).
  fold st' in Hown, Hlt, Hcell.
  split; [exact Hown|]. split.
  - intros x. cbn [Objects.view _proxies].
    change (Objects.proxies_ref (state_after (Objects.list_append r x st')))
      with (Objects.proxies_ref st').
    rewrite <- Hown. now apply heap_append_contents.
  - intros env'. split.
    + unfold Objects.refresh_proxies. rewrite heap_fetch_and_store_run.
      unfold state_after at 1. cbn [fst snd].
      now apply heap_contents_refreshed_old.
    + now apply heap_read_frames.
Qed.

Lemma read_returns_own_list_witness :
  let st' := state_after (Objects.proxies_async Sample.url
                            (Sample.site_up Sample.two_lines 5) (Sample.heap_init 0)) in
  Objects.contents 1 (state_after (Objects.refresh_proxies Sample.url
                                     (Sample.site_down 9) st'))
  = Objects.contents 1 st'.
Proof.
  refine (proj1 (proj2 (proj2 (read_returns_own_list Sample.url
                  (Sample.site_up Sample.two_lines 5) (Sample.heap_init 0) 1%nat _ _))
                  (Sample.site_down 9))).
  - simpl. lia.
  - reflexivity.
Defined.

Lemma secondary_fetcher_unbound_local_witness :
  outcome (__get_proxies_2 Z pretty (RequestException "503 Server Error") tt)
  = Raise (UnboundLocalError "ip_list").
Proof.
  apply (proj2 (secondary_fetcher_unbound_local Z pretty unit tt)).
  exists "503 Server Error". reflexivity.
Defined.

(** * Further properties of the code *)

(** ** [__test_proxy]: the batches do not show *)

(** X1: testing a list through [__test_proxy], in batches of twenty, gives
    what one batch over the whole list gives: the candidates whose
    validation returned [True], in order, and one debug line per validation
    that raised. The answers of the sequential fallback play no part, and
    the manager is left alone. *)
Theorem test_proxy_batches_do_not_show exn_str oracle fallback proxies (st : manager) :
  __test_proxy exn_str oracle fallback proxies st
  = _test_proxy_batch exn_str oracle proxies st /\
  outcome (__test_proxy exn_str oracle fallback proxies st)
  = Ok (passed_from oracle 0 proxies) /\
  state_after (__test_proxy exn_str oracle fallback proxies st) = st /\
  (length (passed_from oracle 0 proxies) <= length proxies)%nat.
Proof.
  rewrite test_proxy_run, test_proxy_batch_run. repeat split.
  apply sublist_length, passed_from_sublist.
Qed.

(** ** [__test_single_proxy] *)

Lemma test_single_proxy_outcome (header_set : Type)
    (headers_list : list header_set) draw answer (st : manager) :
  let run := __test_single_proxy header_set headers_list draw answer st in
  (outcome run = Ok true <-> headers_list <> [] /\ answer = Status 200) /\
  (outcome run = Raise IndexError <-> headers_list = []) /\
  state_after run = st /\ trace run = [].
Proof.
  intros run. subst run. destruct headers_list as [|h hs].
  - unfold __test_single_proxy, bind, random_choice, getitem. simpl.
    unfold outcome, state_after, trace. cbn [fst snd].
    repeat split; try discriminate; try tauto.
  - rewrite test_single_proxy_run by discriminate.
    unfold outcome, state_after, trace. cbn [fst snd].
    repeat split; try discriminate.
    + destruct answer as [code|]; [|discriminate].
      destruct (Z.eqb_spec code 200); [subst; reflexivity | discriminate].
    + intros [_ ->]. reflexivity.
Qed.

(** X2: the validator answers [True] exactly for a response with status 200
    (given a header list to choose from); with an empty header list it
    raises [IndexError], whatever the proxy would have answered; it has no
    effect on the manager. *)
Theorem validator_passes_only_status_200 (header_set : Type)
    (headers_list : list header_set) draw answer (st : manager) :
  let run := __test_single_proxy header_set headers_list draw answer st in
  (outcome run = Ok true <-> headers_list <> [] /\ answer = Status 200) /\
  (outcome run = Raise IndexError <-> headers_list = []) /\
  state_after run = st /\ trace run = [].
Proof. apply test_single_proxy_outcome. Qed.

Lemma validator_passes_only_status_200_witness :
  outcome (__test_single_proxy nat [7%nat] 3 (Status 200) (class_init 0)) = Ok true /\
  outcome (__test_single_proxy nat [] 3 (Status 200) (class_init 0)) = Raise IndexError.
Proof.
  split.
  - apply (proj1 (validator_passes_only_status_200 nat [7%nat] 3 (Status 200)
                    (class_init 0))).
    split; [discriminate | reflexivity].
  - apply (proj1 (proj2 (validator_passes_only_status_200 nat [] 3 (Status 200)
                           (class_init 0)))).
    reflexivity.
Defined.

(** ** When a read fetches *)

(** X3: a read downloads exactly when the pool is empty or strictly older
    than the six minutes; at an age of exactly six minutes the cached pool
    is still served, untouched and without any effect. *)
Theorem read_fetches_iff_stale url env st t :
  __proxy_timestamp st = Some t ->
  (_proxies st = [] \/ t + 360000000 < now_check env ->
   fetches (trace (proxies_async url env st)) = 1%nat /\
   state_after (proxies_async url env st) = refreshed st env) /\
  (_proxies st <> [] /\ now_check env <= t + 360000000 ->
   proxies_async url env st = (Ok (_proxies st), st, [])).
Proof.
  intros Ht. split.
  - intros Hstale.
    rewrite proxies_async_stale.
    + unfold trace, state_after. cbn [fst snd]. now rewrite fetches_cycle_trace.
    + destruct Hstale as [Hnil|Hold]; [now left | right; exists t; auto].
  - intros [Hne Hfresh].
    apply (proxies_async_fresh url env st t Hne Ht).
    unfold __proxy_expiration. lia.
Qed.

Lemma read_fetches_iff_stale_witness :
  proxies_async Sample.url (Sample.site_down 360000000) Fixture.stale_pool
  = (Ok ["1.2.3.4:8080"], Fixture.stale_pool, []) /\
  fetches (trace (proxies_async Sample.url (Sample.site_down 360000001)
                    Fixture.stale_pool)) = 1%nat.
Proof.
  split.
  - refine (proj2 (read_fetches_iff_stale Sample.url (Sample.site_down 360000000)
                     Fixture.stale_pool 0 eq_refl) _).
    split; [discriminate | simpl; lia].
  - refine (proj1 (proj1 (read_fetches_iff_stale Sample.url
                            (Sample.site_down 360000001) Fixture.stale_pool 0 eq_refl)
                     _)).
    right. simpl. lia.
Defined.

(** X4: a failed download is not remembered. After [refresh_proxies], the
    next read downloads again at once when that refresh had failed; when it
    had succeeded, the next read downloads only once the six minutes since
    the refresh are over. *)
Theorem failed_refresh_is_not_cached url first next st :
  let st1 := state_after (refresh_proxies url first st) in
  fetches (trace (proxies_async url next st1)) =
  match response first with
  | RequestException _ => 1%nat
  | Responded _ =>
      if now_stamp first + 360000000 <? now_check next then 1%nat else 0%nat
  end.
Proof.
  intros st1. subst st1. rewrite refresh_proxies_run.
  unfold state_after at 1. cbn [fst snd].
  destruct (response first) as [body|msg] eqn:Hresp.
  - destruct (Z.ltb_spec (now_stamp first + 360000000) (now_check next)).
    + rewrite proxies_async_stale.
      * unfold trace. cbn [snd]. apply fetches_cycle_trace.
      * right. exists (now_stamp first). split; [reflexivity|].
        unfold __proxy_expiration. lia.
    + rewrite (proxies_async_fresh url next _ (now_stamp first)).
      * reflexivity.
      * simpl. rewrite Hresp. apply split_not_nil.
      * reflexivity.
      * unfold __proxy_expiration. lia.
  - rewrite proxies_async_stale.
    + unfold trace. cbn [snd]. apply fetches_cycle_trace.
    + left. simpl. now rewrite Hresp.
Qed.

(** ** After a download that succeeded *)

(** X5: a download that succeeded never leaves the pool empty (an empty body
    gives one empty entry): [get_random_proxy] then always returns an entry
    of the split body, and [get_stats] counts one entry more than the body
    has newlines. *)
Theorem successful_refresh_fills_pool url isoformat st check body stamp draw :
  let env := {| now_check := check; response := Responded body; now_stamp := stamp |} in
  let st' := state_after (refresh_proxies url env st) in
  (exists p, get_random_proxy draw st' = (Ok (Some p), st', []) /\
             p ∈ Py.split Py.newline body) /\
  (exists s, get_stats isoformat st' = (Ok s, st', []) /\
             proxy_count s = S (Py.count Py.newline body) /\
             last_refresh s = Some (isoformat stamp)).
Proof.
  intros env st'. subst st'. rewrite refresh_proxies_run.
  unfold state_after. cbn [fst snd]. split.
  - destruct (get_random_proxy_run draw (refreshed st env)) as ([p|] & Hrun & Hp).
    + exists p. split; [exact Hrun | exact Hp].
    + simpl in Hp. now apply split_not_nil in Hp.
  - rewrite (get_stats_run isoformat (refreshed st env) stamp eq_refl).
    eexists. split; [reflexivity|]. simpl. split; [apply length_split | reflexivity].
Qed.

(** ** An invariant of the pool *)

Lemma candidates_free resp :
  Forall (fun entry => Py.contains Py.newline entry = false) (candidates resp).
Proof. destruct resp; [apply split_pieces_free | constructor]. Qed.

(** X6: in every state the class can reach, no entry of the pool contains a
    newline character (an entry may still be empty). *)
Theorem pool_entries_have_no_newline url isoformat st :
  reachable url isoformat st ->
  Forall (fun entry => Py.contains Py.newline entry = false) (_proxies st).
Proof.
  induction 1 as [now | st c Hreach IH]; [constructor|].
  destruct (reachable_invariant url isoformat st Hreach) as [[t Ht] _].
  destruct c as [env|env|draw|]; simpl.
  - destruct (_proxies st) as [|p ps] eqn:Hp.
    + rewrite proxies_async_stale by (now left). apply candidates_free.
    + destruct (Z.ltb_spec (t + __proxy_expiration) (now_check env)).
      * rewrite proxies_async_stale by (right; eauto). apply candidates_free.
      * rewrite (proxies_async_fresh url env st t) by (congruence || lia).
        unfold state_after. cbn [fst snd]. now rewrite Hp.
  - rewrite refresh_proxies_run. apply candidates_free.
  - destruct (get_random_proxy_run draw st) as (choice & -> & _). exact IH.
  - rewrite get_stats_state. exact IH.
Qed.

Lemma pool_entries_have_no_newline_witness :
  Forall (fun entry => Py.contains Py.newline entry = false)
    (_proxies (run_call Sample.url Sample.isoformat
                 (CallProxiesAsync (Sample.site_up Sample.two_lines 9))
                 (class_init 0))).
Proof.
  apply (pool_entries_have_no_newline Sample.url Sample.isoformat).
  apply reachable_call, reachable_init.
Defined.

(** ** [__get_proxies_2] after a download that succeeded *)

Lemma ip_port_list_complete (json : Type) (py_str : json -> string) (S : Type)
    (proxies : list (gmap string json)) (st : S) :
  Forall (fun d => is_Some (d !! "ip") -> is_Some (d !! "port")) proxies ->
  ip_port_list json py_str proxies st =
  (Ok (omap (fun d => ip ← d !! "ip"; port ← d !! "port";
                      Some (py_str ip +:+ ":" +:+ py_str port)) proxies), st, []).
Proof.
  induction 1 as [|d rest Hd _ IH]; [reflexivity|].
  cbn [ip_port_list]. case_bool_decide as Hip.
  - destruct Hip as [ip Hip]. destruct (Hd (mk_is_Some _ _ Hip)) as [port Hport].
    unfold bind, dict_get. rewrite Hip, Hport. cbn [ret]. rewrite IH.
    simpl. rewrite Hip. simpl. rewrite Hport. reflexivity.
  - rewrite IH. simpl. destruct (d !! "ip") as [ip|] eqn:Hip'; [|reflexivity].
    exfalso. apply Hip. eauto.
Qed.

Lemma ip_port_list_missing_port (json : Type) (py_str : json -> string) (S : Type)
    (proxies : list (gmap string json)) (st : S) :
  Exists (fun d => is_Some (d !! "ip") /\ d !! "port" = None) proxies ->
  ip_port_list json py_str proxies st = (Raise (KeyError "port"), st, []).
Proof.
  induction proxies as [|d rest IH]; intros Hex; [inversion Hex|].
  cbn [ip_port_list]. case_bool_decide as Hip.
  - destruct Hip as [ip Hip]. unfold bind, dict_get. rewrite Hip.
    destruct (d !! "port") as [port|] eqn:Hport; cbn [ret]; [|reflexivity].
    rewrite IH; [reflexivity|].
    inversion Hex as [? ? [_ Hnone]|]; subst; [congruence | assumption].
  - apply IH. inversion Hex as [? ? [Hsome _]|]; subst; [contradiction | assumption].
Qed.

(** X7: after a download that succeeded, [__get_proxies_2] skips the entries
    without an ["ip"] key and turns the others into ["ip:port"], in order;
    but one entry that has an ["ip"] and no ["port"] makes the whole call
    raise [KeyError] for ["port"] (the handler catches [RequestException]
    only), and nothing is returned. *)
Theorem secondary_fetcher_after_download (json : Type) (py_str : json -> string)
    (S : Type) (proxies : list (gmap string json)) (st : S) :
  (Forall (fun d => is_Some (d !! "ip") -> is_Some (d !! "port")) proxies ->
   __get_proxies_2 json py_str (Responded proxies) st =
   (Ok (omap (fun d => ip ← d !! "ip"; port ← d !! "port";
                       Some (py_str ip +:+ ":" +:+ py_str port)) proxies),
    st, [HttpGet proxifly_url])) /\
  (Exists (fun d => is_Some (d !! "ip") /\ d !! "port" = None) proxies ->
   __get_proxies_2 json py_str (Responded proxies) st =
   (Raise (KeyError "port"), st, [HttpGet proxifly_url])).
Proof.
  split; intros H; unfold __get_proxies_2, bind, emit.
  - rewrite (ip_port_list_complete json py_str S proxies st H). reflexivity.
  - rewrite (ip_port_list_missing_port json py_str S proxies st H). reflexivity.
Qed.

Lemma secondary_fetcher_after_download_witness :
  __get_proxies_2 Z pretty
    (Responded [ {[ "ip" := 10; "port" := 80 ]}; {[ "port" := 81 ]};
                 {[ "ip" := 12 ]} ]) tt
  = (Raise (KeyError "port"), tt, [HttpGet proxifly_url]) /\
  __get_proxies_2 Z pretty
    (Responded [ {[ "ip" := 10; "port" := 80 ]}; {[ "port" := 81 ]} ]) tt
  = (Ok ["10:80"], tt, [HttpGet proxifly_url]).
Proof.
  split.
  - apply (proj2 (secondary_fetcher_after_download Z pretty unit _ tt)).
    do 2 apply Exists_cons_tl. apply Exists_cons_hd.
    split; [eexists; reflexivity | reflexivity].
  - refine (proj1 (secondary_fetcher_after_download Z pretty unit
                     [ {[ "ip" := 10; "port" := 80 ]}; {[ "port" := 81 ]} ] tt) _).
    repeat constructor.
    + intros _. eexists. reflexivity.
    + intros [v Hv]. discriminate Hv.
Defined.

(** ** The scraper *)

Lemma scrape_rows_run (S : Type) (rows : list (list string)) :
  forall (acc : list string) (st : S),
    scrape_rows rows acc st =
    (if forallb row_complete rows then Ok (acc ++ map row_proxy rows)
     else Raise IndexError, st, []).
Proof.
  induction rows as [|row rest IH]; intros acc st.
  - simpl. unfold ret. now rewrite app_nil_r.
  - destruct row as [|ip [|port more]]; try reflexivity.
    cbn [scrape_rows forallb row_complete andb]. unfold bind, getitem. cbn.
    rewrite IH. destruct (forallb row_complete rest); [|reflexivity].
    now rewrite <- app_assoc.
Qed.

(** X8: [__get_proxies_old] returns a list exactly when there are headers to
    choose from, the request comes back, the page has a table body and every
    row has two cells; the list is then one ["cell0:cell1"] per row, in
    order. A row that is too short loses the whole list ([IndexError]); with
    no header to choose the request is not even made. Nothing is caught and
    the manager is never touched. *)
Theorem scraper_returns_or_raises (header_set : Type) (headers_list : list header_set)
    (proxy_webpage : string) draw page (st : manager) :
  let run := __get_proxies_old header_set headers_list proxy_webpage draw page st in
  outcome run =
    match headers_list with
    | [] => Raise IndexError
    | _ :: _ =>
        match page with
        | RequestException msg => Raise (Exception msg)
        | Responded None => Raise (Exception "'NoneType' object has no attribute 'find_all'")
        | Responded (Some rows) =>
            if forallb row_complete rows then Ok (map row_proxy rows)
            else Raise IndexError
        end
    end /\
  state_after run = st /\
  trace run = match headers_list with
              | [] => []
              | _ :: _ => [HttpGet proxy_webpage]
              end.
Proof.
  intros run. subst run. unfold __get_proxies_old, bind.
  destruct headers_list as [|h hs]; [repeat split|].
  destruct (random_choice_ok draw (h :: hs) st) as (x & -> & _); [discriminate|].
  unfold emit. destruct page as [[rows|]|msg]; try (repeat split; fail).
  rewrite scrape_rows_run.
  destruct (forallb row_complete rows); repeat split.
Qed.

(** ** The handlers *)

Lemma get_random_proxy_exact draw st :
  _proxies st <> [] ->
  get_random_proxy draw st =
  (Ok (_proxies st !! (draw mod length (_proxies st))%nat), st, []) /\
  is_Some (_proxies st !! (draw mod length (_proxies st))%nat).
Proof.
  intros Hne. unfold get_random_proxy, bind, gets. cbn beta iota.
  destruct (_proxies st) as [|p ps] eqn:Hp; [congruence|].
  cbn [truthy negb].
  assert (Hlt : (draw mod length (p :: ps) < length (p :: ps))%nat)
    by (apply Nat.mod_upper_bound; discriminate).
  destruct (lookup_lt_is_Some_2 (p :: ps) _ Hlt) as [x Hx].
  unfold random_choice, getitem. rewrite Hx. split; [reflexivity | eauto].
Qed.

Lemma random_route_run exn_str draw st :
  exists r,
    Routes.get_random_proxy exn_str draw st
    = (Answered r, st, [LogInfo "GET /proxy/random endpoint called"]) /\
    (success r = false <->
     _proxies st = [] \/
     _proxies st !! (draw mod length (_proxies st))%nat = Some EmptyString) /\
    (success r = true ->
     exists p, data r = DataProxy p /\ p ∈ _proxies st /\ p <> EmptyString).
Proof.
  unfold Routes.get_random_proxy, Routes.or_500, bind, emit.
  destruct (_proxies st) as [|q qs] eqn:Hp.
  - destruct (get_random_proxy_run draw st) as ([p|] & Hrun & Hin).
    + rewrite Hp in Hin. inversion Hin.
    + rewrite Hrun. cbn. eexists. split; [reflexivity|]. cbn.
      split; [tauto | discriminate].
  - destruct (get_random_proxy_exact draw st) as [Hrun [x Hx]]; [congruence|].
    rewrite Hrun, Hp in *. rewrite Hx.
    destruct x as [|c rest]; cbn; eexists; (split; [reflexivity|]); cbn.
    + split; [split; auto | discriminate].
    + split; [split; [discriminate | intros [?|?]; discriminate]|].
      intros _. eexists. split; [reflexivity|]. split; [|discriminate].
      apply list_elem_of_lookup. eauto.
Qed.

(** X9: [GET /proxy/random] never fails with a 500 and never changes the
    manager. It reports [success = False] ("No valid proxies available")
    exactly when the pool is empty or the entry drawn is the empty string;
    otherwise the data is an entry of the pool that is not empty. *)
Theorem random_route_outcome exn_str draw st :
  exists r,
    Routes.get_random_proxy exn_str draw st
    = (Answered r, st, [LogInfo "GET /proxy/random endpoint called"]) /\
    (success r = false <->
     _proxies st = [] \/
     _proxies st !! (draw mod length (_proxies st))%nat = Some EmptyString) /\
    (success r = true ->
     exists p, data r = DataProxy p /\ p ∈ _proxies st /\ p <> EmptyString).
Proof. apply random_route_run. Qed.

Lemma random_route_outcome_witness :
  exists r,
    Routes.get_random_proxy Sample.exn_str 4 Sample.populated
    = (Answered r, Sample.populated, [LogInfo "GET /proxy/random endpoint called"]) /\
    data r = DataProxy "1.2.3.4:8080".
Proof.
  destruct (random_route_outcome Sample.exn_str 4 Sample.populated)
    as (r & Hrun & Hfalse & Htrue).
  exists r. split; [exact Hrun|].
  assert (Hs : success r = true).
  { destruct (success r) eqn:Hsr; [reflexivity|].
    destruct (proj1 Hfalse eq_refl) as [H|H]; discriminate H. }
  destruct (Htrue Hs) as (p & -> & Hin & _).
  apply list_elem_of_singleton in Hin. now subst p.
Defined.

Lemma split_trailing_separator sep s :
  Py.split sep (s +:+ String sep EmptyString) = Py.split sep s ++ [EmptyString].
Proof.
  induction s as [|c rest IH]; simpl.
  - now rewrite Ascii.eqb_refl.
  - destruct (Ascii.eqb c sep); [now rewrite IH|].
    rewrite IH. pose proof (split_not_nil sep rest) as Hne.
    destruct (Py.split sep rest); [congruence | reflexivity].
Qed.

(** X10: a downloaded list that ends with a newline puts an empty entry at
    the end of the pool, and the draw that lands on it makes
    [GET /proxy/random] answer "No valid proxies available" although the
    pool is not empty. *)
Theorem trailing_newline_fails_random_route url exn_str st check body stamp :
  let env := {| now_check := check;
                response := Responded (body +:+ String Py.newline EmptyString);
                now_stamp := stamp |} in
  let st' := state_after (refresh_proxies url env st) in
  _proxies st' = Py.split Py.newline body ++ [EmptyString] /\
  Routes.get_random_proxy exn_str (length (Py.split Py.newline body)) st'
  = (Answered {| success := false; data := DataNone;
                 message := "No valid proxies available" |},
     st', [LogInfo "GET /proxy/random endpoint called"]).
Proof.
  intros env st'.
  assert (Hpool : _proxies st' = Py.split Py.newline body ++ [EmptyString]).
  { subst st'. rewrite refresh_proxies_run. unfold state_after. cbn [fst snd].
    simpl. apply split_trailing_separator. }
  split; [exact Hpool|].
  destruct (random_route_run exn_str (length (Py.split Py.newline body)) st')
    as (r & Hrun & Hfalse & _).
  rewrite Hrun.
  assert (Hs : success r = false).
  { apply Hfalse. right. rewrite Hpool, length_app. cbn [length].
    rewrite Nat.mod_small by lia.
    rewrite lookup_app_r by lia. now rewrite Nat.sub_diag. }
  revert Hrun Hs.
  unfold Routes.get_random_proxy, Routes.or_500, bind, emit.
  destruct (get_random_proxy_run (length (Py.split Py.newline body)) st')
    as (choice & -> & _).
  cbn. destruct (falsy choice); intros [= <-]; cbn; [reflexivity | discriminate].
Qed.




(** ** The API key check *)

Lemma slice_from_append prefix rest :
  slice_from (String.length prefix) (prefix +:+ rest) = rest.
Proof. induction prefix as [|c prefix IH]; [destruct rest|]; simpl; auto. Qed.

Lemma prefix_append prefix rest : String.prefix prefix (prefix +:+ rest) = true.
Proof.
  induction prefix as [|c prefix IH]; simpl; [now destruct rest|].
  destruct (ascii_dec c c); [exact IH | congruence].
Qed.

Lemma length_slice_from n s :
  String.length (slice_from n s) = (String.length s - n)%nat.
Proof.
  revert s. induction n as [|n IH]; intros s; simpl; [lia|].
  destruct s; simpl; [reflexivity | apply IH].
Qed.

Lemma prefix_length p s :
  String.prefix p s = true -> (String.length p <= String.length s)%nat.
Proof.
  revert s. induction p as [|c p IH]; intros s; simpl; [lia|].
  destruct s as [|d s]; intros H; simpl in H; [discriminate|].
  destruct (ascii_dec c d); [|discriminate].
  apply IH in H. simpl. lia.
Qed.

Lemma presented_key_bearer key : presented_key ("Bearer " +:+ key) = key.
Proof.
  unfold presented_key. rewrite prefix_append.
  exact (slice_from_append "Bearer " key).
Qed.

Lemma presented_key_fixed value :
  presented_key value = value <-> String.prefix "Bearer " value = false.
Proof.
  unfold presented_key.
  destruct (String.prefix "Bearer " value) eqn:Hpre; split; try easy.
  intros Heq. apply prefix_length in Hpre.
  apply (f_equal String.length) in Heq. rewrite length_slice_from in Heq.
  simpl in Hpre. lia.
Qed.

(** X13: when a key is required, presenting ["Bearer " + key] in the
    [Authorization] header is accepted for every configured key, the empty
    one included; presenting the bare key in [X-API-Key] is accepted exactly
    when the key is not empty and does not itself start with ["Bearer "]
    (such a key loses its prefix before the comparison). *)
Theorem bearer_prefix_is_stripped key :
  let settings := {| require_api_key := true; api_key := key |} in
  verify_api_key settings {[ "Authorization" := "Bearer " +:+ key ]} = Answered true /\
  (verify_api_key settings {[ "X-API-Key" := key ]} = Answered true <->
   key <> EmptyString /\ String.prefix "Bearer " key = false).
Proof.
  intros settings. subst settings. unfold verify_api_key, py_or. cbn [require_api_key negb api_key].
  split.
  - rewrite lookup_singleton_ne by discriminate. rewrite lookup_singleton_eq.
    cbn [falsy append].
    change (String "B" ("earer " +:+ key)) with ("Bearer " +:+ key).
    rewrite presented_key_bearer, String.eqb_refl. reflexivity.
  - rewrite lookup_singleton_eq.
    destruct key as [|c key]; cbn [falsy].
    + rewrite lookup_singleton_ne by discriminate.
      split; [discriminate | intros [H _]; congruence].
    + rewrite <- presented_key_fixed.
      destruct (String.eqb_spec (presented_key (String c key)) (String c key)) as [He|Hne];
        cbn [negb]; split; try discriminate; auto.
      intros [_ H]. contradiction.
Qed.

Lemma bearer_prefix_is_stripped_witness :
  verify_api_key Fixture.secured {[ "X-API-Key" := "s3cret" ]} = Answered true.
Proof.
  apply (proj2 (bearer_prefix_is_stripped "s3cret")).
  split; [discriminate | reflexivity].
Defined.

(** X14: the check answers [True] or raises a 401, nothing else. A
    non-empty [X-API-Key] header decides alone: the [Authorization] header is
    then not looked at, so a wrong [X-API-Key] is rejected even beside a
    right [Authorization]. When no key is required every request passes. *)
Theorem x_api_key_decides_alone settings headers value :
  headers !! "X-API-Key" = Some value ->
  value <> EmptyString ->
  verify_api_key settings headers = verify_api_key settings {[ "X-API-Key" := value ]} /\
  (verify_api_key settings headers = Answered true <->
   require_api_key settings = false \/ presented_key value = api_key settings) /\
  (verify_api_key settings headers = Answered true \/
   verify_api_key settings headers = HTTPException 401 "Invalid API key").
Proof.
  intros Hx Hne. unfold verify_api_key, py_or.
  rewrite Hx, lookup_singleton_eq.
  destruct value as [|c value]; [congruence|]. cbn [falsy].
  destruct (require_api_key settings); cbn [negb];
    [|split; [reflexivity|]; split; [split; auto | auto]].
  destruct (String.eqb_spec (presented_key (String c value)) (api_key settings));
    cbn [negb]; (split; [reflexivity|]); split; auto.
  - split; auto.
  - split; [discriminate | intros [?|?]; [discriminate | contradiction]].
Qed.

Lemma x_api_key_decides_alone_witness :
  verify_api_key Fixture.secured
    {[ "X-API-Key" := "wrong"; "Authorization" := "Bearer s3cret" ]}
  = HTTPException 401 "Invalid API key".
Proof.
  assert (Hx : ({[ "X-API-Key" := "wrong"; "Authorization" := "Bearer s3cret" ]}
                  : gmap string string) !! "X-API-Key" = Some "wrong")
    by apply lookup_insert_eq.
  destruct (x_api_key_decides_alone Fixture.secured _ "wrong" Hx ltac:(discriminate))
    as (-> & _ & _).
  unfold verify_api_key, py_or. rewrite lookup_singleton_eq. reflexivity.
Defined.

(** ** The thread pool holder *)

(** The workers setting lets a pool be built. *)
Lemma executor_reuses pool st :
  Concurrency._executor st = Some pool ->
  Concurrency.executor st = (Ok pool, st, []).
Proof.
  intros H. unfold Concurrency.executor, bind, gets. cbn beta iota. now rewrite H.
Qed.

Lemma executor_refuses n st :
  Concurrency._executor st = None ->
  Concurrency.max_workers st = Some n -> n <= 0 ->
  Concurrency.executor st
  = (Raise (Exception "max_workers must be greater than 0"), st, []).
Proof.
  intros He Hw Hn. unfold Concurrency.executor, bind, gets. cbn beta iota.
  rewrite He. cbn beta iota. rewrite Hw. unfold Concurrency.ThreadPoolExecutor.
  destruct (Z.leb_spec n 0); [reflexivity | lia].
Qed.

Lemma executor_builds st :
  Concurrency._executor st = None ->
  match Concurrency.max_workers st with Some n => 0 < n | None => True end ->
  Concurrency.executor st
  = (Ok (Concurrency.built st),
     {| Concurrency.max_workers := Concurrency.max_workers st;
        Concurrency._executor := Some (Concurrency.built st);
        Concurrency.alive := {[ Concurrency.built st ]} ∪ Concurrency.alive st;
        Concurrency.built := S (Concurrency.built st) |}, []).
Proof.
  destruct st as [workers current live made]. simpl. intros -> Hw.
  unfold Concurrency.executor, bind, gets. simpl.
  destruct workers as [n|]; [|reflexivity]. simpl.
  destruct (Z.leb_spec n 0); [lia | reflexivity].
Qed.

(** The three ways an access to [executor] can go. *)
Lemma executor_cases st :
  (exists pool, Concurrency._executor st = Some pool /\
                Concurrency.executor st = (Ok pool, st, [])) \/
  (Concurrency._executor st = None /\
   exists e, Concurrency.executor st = (Raise e, st, [])) \/
  (Concurrency._executor st = None /\
   exists st', Concurrency.executor st = (Ok (Concurrency.built st), st', []) /\
     Concurrency._executor st' = Some (Concurrency.built st) /\
     Concurrency.alive st' = {[ Concurrency.built st ]} ∪ Concurrency.alive st /\
     Concurrency.built st' = S (Concurrency.built st) /\
     Concurrency.max_workers st' = Concurrency.max_workers st).
Proof.
  destruct (Concurrency._executor st) as [pool|] eqn:He.
  - left. exists pool. split; [reflexivity | now apply executor_reuses].
  - right. destruct (Concurrency.max_workers st) as [n|] eqn:Hw.
    + destruct (Z.le_gt_cases n 0).
      * left. split; [reflexivity|]. eexists. now apply (executor_refuses n).
      * right. split; [reflexivity|]. eexists. split.
        { apply executor_builds; [exact He | rewrite Hw; lia]. }
        simpl. auto.
    + right. split; [reflexivity|]. eexists. split.
      { apply executor_builds; [exact He | now rewrite Hw]. }
      simpl. auto.
Qed.

Lemma executor_keeps_one_pool st :
  Concurrency.one_pool st -> Concurrency.one_pool (state_after (Concurrency.executor st)).
Proof.
  unfold Concurrency.one_pool. intros Hinv.
  destruct (executor_cases st) as [(pool & He & ->) | [(He & e & ->) |
    (He & st' & -> & He' & Ha' & _)]]; unfold state_after; cbn [fst snd]; try exact Hinv.
  rewrite He', Ha', Hinv, He. apply union_empty_r_L.
Qed.

Lemma shutdown_empties st :
  Concurrency.one_pool st ->
  Concurrency.alive (state_after (Concurrency.shutdown st)) = ∅ /\
  Concurrency._executor (state_after (Concurrency.shutdown st)) = None.
Proof.
  destruct st as [workers current live made]. unfold Concurrency.one_pool. simpl.
  intros ->. destruct current as [pool|]; simpl; [|auto].
  split; [apply difference_diag_L | reflexivity].
Qed.

Lemma shutdown_keeps_one_pool st :
  Concurrency.one_pool st -> Concurrency.one_pool (state_after (Concurrency.shutdown st)).
Proof.
  intros Hinv. destruct (shutdown_empties st Hinv) as [Ha He].
  unfold Concurrency.one_pool. now rewrite Ha, He.
Qed.

Lemma run_in_thread_state {A} (answer : result A) st :
  state_after (Concurrency.run_in_thread answer st)
  = state_after (Concurrency.executor st) /\
  trace (Concurrency.run_in_thread answer st) = [].
Proof.
  unfold Concurrency.run_in_thread, bind.
  destruct (executor_cases st) as [(pool & _ & ->) | [(_ & e & ->) | (_ & st' & -> & _)]];
    destruct answer; auto.
Qed.

Lemma run_batch_from_pool {A B} (answers : nat -> A -> result B) items :
  forall i st pool,
    Concurrency._executor st = Some pool ->
    Concurrency.run_batch_from answers i items st
    = (Ok (imap (fun j => answers (i + j)%nat) items), st, []).
Proof.
  induction items as [|x rest IH]; intros i st pool He; [reflexivity|].
  cbn [Concurrency.run_batch_from imap]. unfold Concurrency.as_entry,
    Concurrency.run_in_thread, bind. rewrite (executor_reuses pool st He).
  rewrite Nat.add_0_r.
  assert (Hrest : Concurrency.run_batch_from answers (S i) rest st
                  = (Ok (imap ((fun j => answers (i + j)%nat) ∘ S) rest), st, [])).
  { rewrite (IH (S i) st pool He). do 2 f_equal. f_equal.
    apply imap_ext. intros j y _. simpl. f_equal. lia. }
  destruct (answers i x); cbn; rewrite Hrest; reflexivity.
Qed.

Lemma run_batch_from_refused {A B} (answers : nat -> A -> result B) items e st :
  Concurrency.executor st = (Raise e, st, []) ->
  forall i,
    Concurrency.run_batch_from answers i items st
    = (Ok (replicate (length items) (Raise e)), st, []).
Proof.
  intros Hraise. induction items as [|x rest IH]; intros i; [reflexivity|].
  cbn [Concurrency.run_batch_from length replicate]. unfold Concurrency.as_entry,
    Concurrency.run_in_thread, bind. rewrite Hraise. cbn. rewrite IH. reflexivity.
Qed.

Lemma run_batch_run (answers : nat -> string -> result bool) items st :
  Concurrency.run_batch answers items st =
  match items with
  | [] => (Ok [], st, [])
  | _ :: _ =>
      match outcome (Concurrency.executor st) with
      | Ok _ => (Ok (imap answers items), state_after (Concurrency.executor st), [])
      | Raise e => (Ok (replicate (length items) (Raise e)), st, [])
      end
  end.
Proof.
  destruct items as [|x rest]; [reflexivity|].
  unfold Concurrency.run_batch.
  destruct (executor_cases st) as [(pool & He & Hrun) | [(He & e & Hrun) |
    (He & st' & Hrun & He' & _)]]; rewrite Hrun; unfold outcome, state_after;
    cbn [fst snd].
  - now rewrite (run_batch_from_pool answers (x :: rest) 0 st pool He).
  - now rewrite (run_batch_from_refused answers (x :: rest) e st Hrun 0).
  - cbn [Concurrency.run_batch_from imap]. unfold Concurrency.as_entry,
      Concurrency.run_in_thread, bind. rewrite Hrun.
    destruct (answers 0%nat x); cbn;
      rewrite (run_batch_from_pool answers rest 1 st' _ He'); reflexivity.
Qed.

(** X15: [run_batch] never raises and returns one entry per item, in order.
    With a pool at hand (kept, or built at the first item: one pool for the
    whole batch) the entries are what the function gave for each item; when
    no pool can be built ([max_workers <= 0]) every entry is that
    [ValueError]. An empty batch builds nothing. *)
Theorem run_batch_entries (answers : nat -> string -> result bool) items st :
  Concurrency.run_batch answers items st =
  match items with
  | [] => (Ok [], st, [])
  | _ :: _ =>
      match outcome (Concurrency.executor st) with
      | Ok _ => (Ok (imap answers items), state_after (Concurrency.executor st), [])
      | Raise e => (Ok (replicate (length items) (Raise e)), st, [])
      end
  end /\
  (forall entries, outcome (Concurrency.run_batch answers items st) = Ok entries ->
                   length entries = length items) /\
  (Concurrency.built (state_after (Concurrency.run_batch answers items st))
   <= S (Concurrency.built st))%nat.
Proof.
  pose proof (run_batch_run answers items st) as Hrun.
  split; [exact Hrun|]. rewrite Hrun. split.
  - destruct items as [|x rest]; [intros ? [= <-]; reflexivity|].
    destruct (outcome (Concurrency.executor st)); unfold outcome; cbn [fst];
      intros ? [= <-];
      [exact (length_imap answers (x :: rest))
      | exact (length_replicate (length (x :: rest)) _)].
  - destruct items as [|x rest]; [unfold state_after; cbn; lia|].
    destruct (executor_cases st) as [(pool & _ & ->) | [(_ & e & ->) |
      (_ & st' & -> & _ & _ & Hb & _)]]; unfold outcome, state_after; cbn [fst snd];
      lia.
Qed.

Lemma run_batch_entries_witness :
  length [Ok true; Raise IndexError] = length ["1.2.3.4:8080"; "5.6.7.8:3128"].
Proof.
  apply (proj1 (proj2 (run_batch_entries
           (fun i _ => match i with O => Ok true | _ => Raise IndexError end)
           ["1.2.3.4:8080"; "5.6.7.8:3128"] (Concurrency.__init__ None)))).
  reflexivity.
Defined.

Lemma run_batch_keeps_one_pool (answers : nat -> string -> result bool) items st :
  Concurrency.one_pool st ->
  Concurrency.one_pool (state_after (Concurrency.run_batch answers items st)).
Proof.
  intros Hinv. rewrite (run_batch_run answers items st).
  destruct items as [|x rest]; [exact Hinv|].
  pose proof (executor_keeps_one_pool st Hinv) as Hexec.
  destruct (outcome (Concurrency.executor st)); [exact Hexec | exact Hinv].
Qed.

Lemma run_call_keeps_one_pool c st :
  Concurrency.one_pool st -> Concurrency.one_pool (Concurrency.run_call c st).
Proof.
  intros Hinv. destruct c as [| |answer|answers items|]; simpl.
  - now apply executor_keeps_one_pool.
  - now apply shutdown_keeps_one_pool.
  - rewrite (proj1 (run_in_thread_state answer st)). now apply executor_keeps_one_pool.
  - now apply run_batch_keeps_one_pool.
  - now apply shutdown_keeps_one_pool.
Qed.

Lemma run_calls_keep_one_pool cs st :
  Concurrency.one_pool st -> Concurrency.one_pool (Concurrency.run_calls cs st).
Proof.
  revert st. induction cs as [|c cs IH]; intros st Hinv; [exact Hinv|].
  simpl. apply IH. now apply run_call_keeps_one_pool.
Qed.

(** X16: whatever is called on a [CPUExecutors] instance, in whatever order,
    the thread pools alive are at most one, the one the instance holds: a
    pool is built only when none is held, and [shutdown] (or leaving the
    [with] block) ends it and forgets it, so no pool is left behind. *)
Theorem executors_hold_at_most_one_pool workers cs :
  let st := Concurrency.run_calls cs (Concurrency.__init__ workers) in
  Concurrency.alive st = match Concurrency._executor st with
                         | Some pool => {[ pool ]}
                         | None => ∅
                         end /\
  (size (Concurrency.alive st) <= 1)%nat /\
  Concurrency.alive (Concurrency.run_call Concurrency.Exit st) = ∅ /\
  Concurrency.alive (Concurrency.run_call Concurrency.Shutdown st) = ∅.
Proof.
  intros st.
  assert (Hinv : Concurrency.one_pool st).
  { apply run_calls_keep_one_pool. reflexivity. }
  split; [exact Hinv|]. split.
  - rewrite Hinv. destruct (Concurrency._executor st).
    + now rewrite size_singleton.
    + rewrite size_empty. lia.
  - split; apply (shutdown_empties st Hinv).
Qed.

(** ** Starting the refresher *)

Lemma start_refresh_run run_time st :
  Main.start_refresh run_time st =
  if match Main.proxy_task st with
     | None => true
     | Some t => negb (bool_decide (t ∈ Main.running st))
     end
  then (Ok (Main.Started (pretty (run_time / 3600) +:+ " hours")),
        {| Main.proxy_task := Some (Main.created st);
           Main.running := {[ Main.created st ]} ∪ Main.running st;
           Main.created := S (Main.created st) |}, [])
  else (Ok Main.AlreadyRunning, st, []).
Proof.
  destruct st as [task live made]. unfold Main.start_refresh, Main.done, bind, gets.
  simpl. destruct task as [t|]; simpl; [|reflexivity].
  destruct (bool_decide (t ∈ live)); reflexivity.
Qed.

Lemma one_refresher_idle st :
  Main.one_refresher st ->
  match Main.proxy_task st with
  | None => true
  | Some t => negb (bool_decide (t ∈ Main.running st))
  end = true ->
  Main.running st = ∅.
Proof.
  unfold Main.one_refresher. intros Hinv Hidle.
  apply set_eq. intros t. split; [|set_solver].
  intros Hin. specialize (Hinv t Hin). rewrite Hinv in Hidle.
  rewrite bool_decide_eq_true_2 in Hidle by exact Hin. discriminate.
Qed.

Lemma run_step_keeps_one_refresher s st :
  Main.one_refresher st -> Main.one_refresher (Main.run_step s st).
Proof.
  intros Hinv. destruct s as [run_time|t']; simpl.
  - rewrite start_refresh_run.
    destruct (match Main.proxy_task st with
              | None => true
              | Some t => negb (bool_decide (t ∈ Main.running st))
              end) eqn:Hidle; unfold state_after; cbn [fst snd]; [|exact Hinv].
    pose proof (one_refresher_idle st Hinv Hidle) as Hnone.
    intros t. simpl. rewrite Hnone, union_empty_r_L, elem_of_singleton.
    intros ->. reflexivity.
  - intros t. unfold Main.task_ends. simpl. rewrite elem_of_difference.
    intros [Hin _]. now apply Hinv.
Qed.

Lemma run_steps_keep_one_refresher ss st :
  Main.one_refresher st -> Main.one_refresher (Main.run_steps ss st).
Proof.
  revert st. induction ss as [|s ss IH]; intros st Hinv; [exact Hinv|].
  simpl. apply IH. now apply run_step_keeps_one_refresher.
Qed.

(** X17: however [start_refresh] is called and refresher tasks end, at most
    one refresher runs, and it is the one [proxy_task] names. While one
    runs, [start_refresh] answers "already running" and changes nothing;
    when none runs it starts one and reports the run time in whole hours,
    rounded down. *)
Theorem at_most_one_refresher ss run_time :
  let st := Main.run_steps ss Main.startup in
  (forall t, t ∈ Main.running st -> Main.proxy_task st = Some t) /\
  (size (Main.running st) <= 1)%nat /\
  (Main.running st <> ∅ ->
   Main.start_refresh run_time st = (Ok Main.AlreadyRunning, st, [])) /\
  (Main.running st = ∅ ->
   outcome (Main.start_refresh run_time st)
   = Ok (Main.Started (pretty (run_time / 3600) +:+ " hours")) /\
   Main.running (state_after (Main.start_refresh run_time st)) = {[ Main.created st ]}).
Proof.
  intros st.
  assert (Hinv : Main.one_refresher st).
  { apply run_steps_keep_one_refresher. intros t Hin. simpl in Hin. set_solver. }
  split; [exact Hinv|]. split; [|split].
  - destruct (Main.proxy_task st) as [t0|] eqn:Htask.
    + transitivity (size ({[ t0 ]} : gset nat)); [|now rewrite size_singleton].
      apply subseteq_size. intros t Hin. specialize (Hinv t Hin).
      rewrite Htask in Hinv. injection Hinv as ->. set_solver.
    + assert (Main.running st = ∅) as ->.
      { apply set_eq. intros t. split; [|set_solver].
        intros Hin. specialize (Hinv t Hin). congruence. }
      rewrite size_empty. lia.
  - intros Hbusy. rewrite start_refresh_run.
    destruct (match Main.proxy_task st with
              | None => true
              | Some t => negb (bool_decide (t ∈ Main.running st))
              end) eqn:Hidle; [|reflexivity].
    contradiction Hbusy. now apply one_refresher_idle.
  - intros Hnone. rewrite start_refresh_run.
    destruct (match Main.proxy_task st with
              | None => true
              | Some t => negb (bool_decide (t ∈ Main.running st))
              end) eqn:Hidle.
    + unfold outcome, state_after. cbn [fst snd Main.running].
      split; [reflexivity|]. rewrite Hnone. apply union_empty_r_L.
    + destruct (Main.proxy_task st) as [t|]; [|discriminate].
      apply negb_false_iff, bool_decide_eq_true_1 in Hidle.
      rewrite Hnone in Hidle. now apply not_elem_of_empty in Hidle.
Qed.

Lemma at_most_one_refresher_witness :
  Main.start_refresh 7200 (Main.run_steps [Main.StartRefresh 1800] Main.startup)
  = (Ok Main.AlreadyRunning, Main.run_steps [Main.StartRefresh 1800] Main.startup, []) /\
  outcome (Main.start_refresh 7199
             (Main.run_steps [Main.StartRefresh 1800; Main.TaskEnds 0] Main.startup))
  = Ok (Main.Started "1 hours").
Proof.
  split.
  - apply (proj1 (proj2 (proj2 (at_most_one_refresher [Main.StartRefresh 1800] 7200)))).
    vm_compute. discriminate.
  - apply (proj2 (proj2 (proj2
             (at_most_one_refresher [Main.StartRefresh 1800; Main.TaskEnds 0] 7199)))).
    vm_compute. reflexivity.
Defined.

(** ** A batch run with the validator itself *)

Lemma passed_from_none oracle k proxies :
  (forall i p, oracle i p <> Ok true) -> passed_from oracle k proxies = [].
Proof.
  intros Hnone. revert k. induction proxies as [|p rest IH]; intros k; simpl;
    [reflexivity|].
  specialize (Hnone k p). destruct (oracle k p) as [[|]|e]; [congruence | apply IH ..].
Qed.

Lemma length_debug_log_all exn_str oracle k proxies :
  (forall i p, exists e, oracle i p = Raise e) ->
  length (debug_log exn_str oracle k proxies) = length proxies.
Proof.
  intros Hall. revert k. induction proxies as [|p rest IH]; intros k; simpl;
    [reflexivity|].
  destruct (Hall k p) as [e ->]. simpl. now rewrite IH.
Qed.

(** X18: when the tasks of a batch are calls of
    [__test_single_proxy], the batch keeps a candidate exactly when its
    request came back with status 200. With an empty header list every
    validation raises, so the batch returns the empty list, with one debug
    line per candidate, and does not raise itself. *)
Theorem batch_of_validator_calls (header_set : Type) (headers_list : list header_set)
    exn_str (draws : nat -> nat) (probes : nat -> string -> probe) proxies (st : manager) :
  let oracle := fun i p =>
    outcome (__test_single_proxy header_set headers_list (draws i) (probes i p) st) in
  let run := _test_proxy_batch exn_str oracle proxies st in
  exists kept,
    outcome run = Ok kept /\ state_after run = st /\
    (headers_list <> [] ->
     forall p, p ∈ kept <->
               exists i, proxies !! i = Some p /\ probes i p = Status 200) /\
    (headers_list = [] ->
     kept = [] /\ length (trace run) = length proxies).
Proof.
  intros oracle run. subst run. rewrite test_proxy_batch_run.
  exists (passed_from oracle 0 proxies).
  unfold outcome, state_after, trace. cbn [fst snd].
  split; [reflexivity|]. split; [reflexivity|]. split.
  - intros Hne p. rewrite elem_of_passed_from.
    split; intros (i & Hi & Hok); exists i; (split; [exact Hi|]); simpl in *.
    + apply (test_single_proxy_outcome header_set headers_list
               (draws i) (probes i p) st) in Hok. tauto.
    + apply (test_single_proxy_outcome header_set headers_list
               (draws i) (probes i p) st). auto.
  - intros Hnil. split.
    + apply passed_from_none. intros i p Hok.
      apply (test_single_proxy_outcome header_set headers_list
               (draws i) (probes i p) st) in Hok. tauto.
    + apply length_debug_log_all. intros i p. exists IndexError.
      apply (test_single_proxy_outcome header_set headers_list
               (draws i) (probes i p) st). exact Hnil.
Qed.

Lemma batch_of_validator_calls_witness :
  (exists kept,
     outcome (_test_proxy_batch Sample.exn_str
                (fun i p => outcome (__test_single_proxy nat [] 0
                                       (Status 200) (class_init 0)))
                ["1.2.3.4:8080"; "5.6.7.8:3128"] (class_init 0)) = Ok kept /\
     kept = []) /\
  (exists kept,
     outcome (_test_proxy_batch Sample.exn_str
                (fun i p => outcome (__test_single_proxy nat [7%nat] 0
                                       (if String.eqb p "5.6.7.8:3128" then Status 200
                                        else Status 503) (class_init 0)))
                ["1.2.3.4:8080"; "5.6.7.8:3128"] (class_init 0)) = Ok kept /\
     "5.6.7.8:3128" ∈ kept).
Proof.
  split.
  - destruct (batch_of_validator_calls nat [] Sample.exn_str (fun _ => 0%nat)
                (fun _ _ => Status 200) ["1.2.3.4:8080"; "5.6.7.8:3128"] (class_init 0))
      as (kept & Hrun & _ & _ & Hnil).
    exists kept. split; [exact Hrun | exact (proj1 (Hnil eq_refl))].
  - destruct (batch_of_validator_calls nat [7%nat] Sample.exn_str (fun _ => 0%nat)
                (fun _ p => if String.eqb p "5.6.7.8:3128" then Status 200
                            else Status 503)
                ["1.2.3.4:8080"; "5.6.7.8:3128"] (class_init 0))
      as (kept & Hrun & _ & Hsome & _).
    exists kept. split; [exact Hrun|].
    apply (Hsome ltac:(discriminate)). exists 1%nat. split; reflexivity.
Defined.
